(** * audio-prevodilac-narator: the PCM/WAV codec and the Gemini service adapter

    A shallow embedding of the audio data path of [TranslationCard]
    ([handleGenerateAudio], [handlePlayAudio]) and of the three functions of
    [services/geminiService.ts] ([transcribeAudio], [translateText],
    [generateSpeech]), with the properties the specification states about
    them.

    Conventions.
    - A byte of a [Uint8Array] or [ArrayBuffer] is a [Z] in [0, 256); a sample
      of an [Int16Array] is a [Z] in [-32768, 32767].  Buffers are lists.
    - A JavaScript exception is the [Err] branch of [result].
    - A JavaScript number is an IEEE 754 binary64 value, a [spec_float] at
      precision 53; an element of a [Float32Array] is one at precision 24.
    - A JavaScript string is its list of UTF-16 code units. *)

From Stdlib Require Import Ascii String.
From Stdlib Require Import ZArith NArith List Lia Bool.
From Stdlib Require Import QArith Qpower Field.
From Stdlib Require Import SpecFloat.
Import ListNotations.

Local Open Scope Z_scope.
Local Set Warnings "-register-all".

(** ** Exceptions and fallible results *)

(** The error taxonomy of the codec (spec, section 7) together with the
    [RangeError] the typed-array constructor of the platform raises. *)
Inductive CodecError : Type :=
| DecodeError
| MalformedAudioError
| InvalidAudioParametersError
| RangeError.

Inductive result (E A : Type) : Type :=
| Ok (a : A)
| Err (e : E).

Arguments Ok {E A} a.
Arguments Err {E A} e.

Definition bind {E A B : Type} (m : result E A) (k : A -> result E B) : result E B :=
  match m with
  | Ok a => k a
  | Err e => Err e
  end.

Definition is_ok {E A : Type} (m : result E A) : bool :=
  match m with
  | Ok _ => true
  | Err _ => false
  end.

(** ** Bytes and samples *)

Module Pcm.

Definition is_byte (b : Z) : Prop := 0 <= b < 256.

Definition is_pcm_sample (s : Z) : Prop := -32768 <= s <= 32767.

(** Two's-complement reading of an unsigned 16-bit value. *)
Definition to_int16 (u : Z) : Z :=
  if 32768 <=? u then u - 65536 else u.

(** The little-endian signed 16-bit integer held in two consecutive bytes. *)
Definition int16_of_le (lo hi : Z) : Z := to_int16 (lo + 256 * hi).

(** The two bytes an [Int16Array] element occupies, low byte first. *)
Definition le_of_int16 (s : Z) : list Z := [s mod 256; (s / 256) mod 256].

(** Consecutive byte pairs read as samples; an unpaired last byte is not read. *)
Fixpoint samples_of_bytes (bs : list Z) : list Z :=
  match bs with
  | lo :: hi :: rest => int16_of_le lo hi :: samples_of_bytes rest
  | _ => []
  end.

(** The memory image of an [Int16Array]. *)
Definition bytes_of_samples (p : list Z) : list Z := flat_map le_of_int16 p.

End Pcm.

(** ** The playback side, from [TranslationCard.handlePlayAudio] *)

Module Playback.
Import Pcm.

(** [new Int16Array(buffer)]: a view over the whole [ArrayBuffer]; the
    constructor throws a [RangeError] when the byte length is not a multiple
    of the element size.  A typed array reads memory in the byte order of
    the platform, little-endian on the platforms browsers run on. *)
Definition Int16Array_of_buffer (buffer : list Z) : result CodecError (list Z) :=
  if Nat.even (length buffer) then Ok (samples_of_bytes buffer) else Err RangeError.

(** [arrayBuffer.slice(44)] followed by [new Int16Array(pcmData)]: the value
    of [pcmInt16] in [handlePlayAudio] once its line 72 is reached.  The
    allocation [createBuffer] that sits between the two statements is left
    out here: it takes no part in the value, but it decides whether the
    handler gets that far, which [Card.handlePlayAudio] models. *)
Definition decodeWav (arrayBuffer : list Z) : result CodecError (list Z) :=
  let pcmData := skipn 44 arrayBuffer in
  Int16Array_of_buffer pcmData.

(** *** Playback amplitudes *)

(** The number an [Int16Array] element reads as. *)
Definition number_of_int (z : Z) : spec_float := binary_normalize 53 1024 z 0 false.

(** Division of two numbers, [/]. *)
Definition number_div : spec_float -> spec_float -> spec_float := SFdiv 53 1024.

(** Storing a number into a [Float32Array]: rounding to binary32. *)
Definition to_float32 (x : spec_float) : spec_float :=
  match x with
  | S754_finite s m e => binary_round 24 128 s m e
  | _ => x
  end.

(** [channelData[i] = pcmInt16[i] / 32768.0], one iteration of the loop. *)
Definition normalize (sample : Z) : spec_float :=
  to_float32 (number_div (number_of_int sample) (number_of_int 32768)).

(** The loop over [pcmInt16]. *)
Definition channelData (pcmInt16 : list Z) : list spec_float := map normalize pcmInt16.

(** The mantissa of 32768.0 as a binary64 number, [2^52]. *)
Definition two52 : positive := 4503599627370496.

(** The real number a float stands for; infinities and NaN stand for none. *)
Definition SF2Q (f : spec_float) : option Q :=
  match f with
  | S754_zero _ => Some 0%Q
  | S754_finite s m e => Some (inject_Z (cond_Zopp s (Zpos m)) * Qpower 2 e)%Q
  | _ => None
  end.

End Playback.

(** ** The generation side: [utils/audioUtils] *)

Module AudioUtils.
Import Pcm.

(** Modelled from the spec: [convertUint8ArrayToInt16Array] of
    [utils/audioUtils], whose source is not available.  Section 4.2: the
    input length must be even, sample [i] is the little-endian
    two's-complement reading of bytes [2i] and [2i+1], and an odd length
    fails with [MalformedAudioError]. *)
Definition convertUint8ArrayToInt16Array (raw : list Z) : result CodecError (list Z) :=
  if Nat.even (length raw) then Ok (samples_of_bytes raw) else Err MalformedAudioError.

(** Modelled from the spec: the header fields of the encoder, whose source
    is not available.  Section 4.3: every multi-byte integer field is
    little-endian; a field 16 or 32 bits wide keeps the low bits of the
    value written to it. *)
Definition le16 (v : Z) : list Z := [v mod 256; (v / 256) mod 256].

Definition le32 (v : Z) : list Z :=
  [v mod 256; (v / 256) mod 256; (v / 65536) mod 256; (v / 16777216) mod 256].

(** The value of a little-endian field read back. *)
Definition read_le (bs : list Z) : Z :=
  fold_right (fun b acc => b + 256 * acc) 0 bs.

(** Modelled from the spec: the four-character tags of the RIFF/WAVE
    container of section 4.3, "RIFF", "WAVE", "fmt " and "data", in ASCII. *)
Definition tag_RIFF : list Z := [82; 73; 70; 70].
Definition tag_WAVE : list Z := [87; 65; 86; 69].
Definition tag_fmt : list Z := [102; 109; 116; 32].
Definition tag_data : list Z := [100; 97; 116; 97].

(** Modelled from the spec: the canonical 44-byte header of section 4.3,
    part of the encoder whose source is not available.  The RIFF size is
    36 + data size; the format chunk is 16 bytes long and declares PCM
    (format 1), the channel count, the sample rate, the byte rate
    [sampleRate * channelCount * 2], the block alignment [channelCount * 2]
    and 16 bits per sample; the data size is [sampleCount * channelCount * 2]. *)
Definition wav_header (sampleCount sampleRate channelCount : Z) : list Z :=
  let dataSize := sampleCount * channelCount * 2 in
  tag_RIFF ++ le32 (36 + dataSize) ++ tag_WAVE
  ++ tag_fmt ++ le32 16
  ++ le16 1 ++ le16 channelCount
  ++ le32 sampleRate ++ le32 (sampleRate * channelCount * 2)
  ++ le16 (channelCount * 2) ++ le16 16
  ++ tag_data ++ le32 dataSize.

(** Modelled from the spec: [pcmToWavBlob] of [utils/audioUtils], whose
    source is not available.  Section 4.3: the header above followed by the
    little-endian samples; a non-positive rate or channel count fails with
    [InvalidAudioParametersError]. *)
Definition pcmToWavBlob (pcmData : list Z) (sampleRate numChannels : Z)
  : result CodecError (list Z) :=
  if (sampleRate <=? 0) || (numChannels <=? 0) then Err InvalidAudioParametersError
  else Ok (wav_header (Z.of_nat (length pcmData)) sampleRate numChannels
           ++ bytes_of_samples pcmData).

(** The name the specification gives the encoder. *)
Definition encodeWav := pcmToWavBlob.

(** The header fields the claims read: the RIFF chunk size at offset 4 and
    the data sub-chunk size at offset 40. *)
Definition riff_size_field (wav : list Z) : Z := read_le (firstn 4 (skipn 4 wav)).
Definition data_size_field (wav : list Z) : Z := read_le (firstn 4 (skipn 40 wav)).

End AudioUtils.

(** ** JavaScript strings *)

Module JsString.

Definition jsstring : Type := list N.

(** A source literal made of ASCII characters. *)
Definition lit (s : string) : jsstring := map N_of_ascii (list_ascii_of_string s).

Fixpoint eqb (s t : jsstring) : bool :=
  match s, t with
  | [], [] => true
  | c :: s', d :: t' => N.eqb c d && eqb s' t'
  | _, _ => false
  end.

(** The code points ECMAScript classes as WhiteSpace or LineTerminator:
    the ones [String.prototype.trim] strips. *)
Definition is_white_space (c : N) : bool :=
  ((9 <=? c) && (c <=? 13)
   || (c =? 32) || (c =? 160) || (c =? 5760)
   || (8192 <=? c) && (c <=? 8202)
   || (c =? 8232) || (c =? 8233) || (c =? 8239) || (c =? 8287)
   || (c =? 12288) || (c =? 65279))%N.

Fixpoint trimStart (s : jsstring) : jsstring :=
  match s with
  | [] => []
  | c :: rest => if is_white_space c then trimStart rest else s
  end.

Definition trimEnd (s : jsstring) : jsstring := rev (trimStart (rev s)).

(** [String.prototype.trim]. *)
Definition trim (s : jsstring) : jsstring := trimEnd (trimStart s).

(** [Array.prototype.join] on an array of strings. *)
Fixpoint join (sep : jsstring) (xs : list jsstring) : jsstring :=
  match xs with
  | [] => []
  | x :: rest =>
      match rest with
      | [] => x
      | _ :: _ => x ++ sep ++ join sep rest
      end
  end.

End JsString.

(** ** The service adapter, from [services/geminiService.ts] *)

Module Service.
Import JsString.

(** *** Values *)

(** What can be thrown: an [Error] built by the code, the [TypeError] and
    [SyntaxError] of the runtime, and whatever the remote call rejects
    with. *)
Inductive exn : Type :=
| Error (message : jsstring)
| TypeError
| SyntaxError
| ServiceError (reason : jsstring).

(** What [JSON.parse] returns. *)
Inductive json : Type :=
| JNull
| JBool (b : bool)
| JNumber (x : spec_float)
| JString (s : jsstring)
| JArray (items : list json)
| JObject (members : list (jsstring * json)).

(** A value read from a parsed item; [None] is [undefined]. *)
Definition value : Type := option json.

(** The own property of an object built by [JSON.parse]: of two members
    with one key the later stands. *)
Fixpoint lookup (key : jsstring) (members : list (jsstring * json)) : value :=
  match members with
  | [] => None
  | (k, v) :: rest =>
      match lookup key rest with
      | Some later => Some later
      | None => if eqb k key then Some v else None
      end
  end.

(** [item.key] for a key that names no built-in property: reading from
    [null] throws, reading from any other primitive or from an array gives
    [undefined]. *)
Definition get_field (item : json) (key : jsstring) : result exn value :=
  match item with
  | JNull => Err TypeError
  | JObject members => Ok (lookup key members)
  | _ => Ok None
  end.

(** [s === v] for a string [s]. *)
Definition strict_eq_string (s : jsstring) (v : value) : bool :=
  match v with
  | Some (JString t) => eqb s t
  | _ => false
  end.

(** [types.ts] *)
Record Language : Type := {
  code : jsstring;
  name : jsstring;
  englishName : jsstring
}.

(** A [Translation] as built at run time: the fields hold whatever the
    parsed item held. *)
Record Translation : Type := {
  languageCode : value;
  languageName : value;
  text : value
}.

(** *** The remote interface *)

Module GenAI.

Inductive RequestPart : Type :=
| InlineDataPart (mimeType data : jsstring)
| TextPart (text : jsstring).

(** The [contents] of a request.  [TranslationPrompt] stands for the
    template literal of [translateText] with its two interpolations. *)
Inductive Contents : Type :=
| Parts (parts : list RequestPart)
| TranslationPrompt (languageList text : jsstring).

Inductive Config : Type :=
| NoConfig
| JsonTranslationSchema
| AudioWithVoice (voiceName : jsstring).

Record GenerateContentParameters : Type := {
  model : jsstring;
  contents : Contents;
  config : Config
}.

Record Blob : Type := { data : option jsstring }.
Record Part : Type := { inlineData : option Blob }.
Record Content : Type := { parts : option (list Part) }.
Record Candidate : Type := { content : option Content }.

(** The response; [text] is the accessor of the SDK, [undefined] when the
    response holds no text. *)
Record GenerateContentResponse : Type := {
  candidates : option (list Candidate);
  text : option jsstring
}.

End GenAI.

(** *** Effects: the remote call and the console *)

Inductive event : Type :=
| Called (request : GenAI.GenerateContentParameters)
| ConsoleError (label : jsstring) (error : exn).

Definition history : Type := list event.

(** [ai.models.generateContent]: what the service answers to a request
    after a given history. *)
Definition service : Type :=
  history -> GenAI.GenerateContentParameters -> result exn GenAI.GenerateContentResponse.

(** A computation that may throw and that extends the history. *)
Definition M (A : Type) : Type := history -> result exn A * history.

Definition ret {A : Type} (a : A) : M A := fun h => (Ok a, h).

Definition throw {A : Type} (e : exn) : M A := fun h => (Err e, h).

Definition mbind {A B : Type} (m : M A) (k : A -> M B) : M B :=
  fun h =>
    match m h with
    | (Ok a, h') => k a h'
    | (Err e, h') => (Err e, h')
    end.

Definition try_catch {A : Type} (body : M A) (handler : exn -> M A) : M A :=
  fun h =>
    match body h with
    | (Ok a, h') => (Ok a, h')
    | (Err e, h') => handler e h'
    end.

Definition lift {A : Type} (r : result exn A) : M A := fun h => (r, h).

Definition generateContent (ai : service) (request : GenAI.GenerateContentParameters)
  : M GenAI.GenerateContentResponse :=
  fun h => (ai h request, h ++ [Called request]).

Definition console_error (label : jsstring) (error : exn) : M unit :=
  fun h => (Ok tt, h ++ [ConsoleError label error]).

Notation "x <- m ;; k" := (mbind m (fun x => k))
  (at level 61, m at next level, right associativity).
Notation "m ;;; k" := (mbind m (fun _ => k))
  (at level 61, right associativity).

(** The number of remote calls a history records. *)
Definition calls (h : history) : nat :=
  length (filter (fun ev => match ev with Called _ => true | _ => false end) h).

(** *** Optional chaining *)

(** [a?.f] *)
Definition opt_chain {A B : Type} (a : option A) (f : A -> option B) : option B :=
  match a with
  | Some x => f x
  | None => None
  end.

(** [a?.[0]] *)
Definition opt_first {A : Type} (a : option (list A)) : option A :=
  opt_chain a (@hd_error A).

(** [response.candidates?.[0]?.content?.parts?.[0]?.inlineData?.data] *)
Definition inline_audio (response : GenAI.GenerateContentResponse) : option jsstring :=
  opt_chain
    (opt_chain
       (opt_first
          (opt_chain
             (opt_chain (opt_first (GenAI.candidates response)) GenAI.content)
             GenAI.parts))
       GenAI.inlineData)
    GenAI.data.

(** [!s] for a string: only the empty string is falsy. *)
Definition is_empty (s : jsstring) : bool :=
  match s with
  | [] => true
  | _ :: _ => false
  end.

(** *** The messages *)

Definition msg_transcription_failed : jsstring :=
  lit "Transkripcija nije uspela. Proverite konzolu za detalje.".

(** "Prevođenje nije uspelo. Proverite konzolu za detalje." *)
Definition msg_translation_failed : jsstring :=
  lit "Prevo" ++ [273%N] ++ lit "enje nije uspelo. Proverite konzolu za detalje.".

Definition msg_speech_failed : jsstring :=
  lit "Generisanje glasa nije uspelo. Proverite konzolu za detalje.".

(** "Nije primljen audio sadržaj od API-ja." *)
Definition msg_no_audio : jsstring :=
  lit "Nije primljen audio sadr" ++ [382%N] ++ lit "aj od API-ja.".

(** "Transkribuj ovaj audio snimak na srpskom jeziku. Vrati samo
    transkribovani tekst." *)
Definition transcription_instruction : jsstring :=
  lit "Transkribuj ovaj audio snimak na srpskom jeziku. Vrati samo transkribovani tekst.".

(** *** The three requests *)

Definition transcription_request (audioBase64 mimeType : jsstring)
  : GenAI.GenerateContentParameters :=
  let audioPart := GenAI.InlineDataPart mimeType audioBase64 in
  let textPart := GenAI.TextPart transcription_instruction in
  {| GenAI.model := lit "gemini-2.5-flash";
     GenAI.contents := GenAI.Parts [audioPart; textPart];
     GenAI.config := GenAI.NoConfig |}.

Definition translation_request (text : jsstring) (targetLanguages : list Language)
  : GenAI.GenerateContentParameters :=
  let languageList :=
    join (lit ", ")
      (map (fun lang => englishName lang ++ lit " (" ++ code lang ++ lit ")")
           targetLanguages) in
  {| GenAI.model := lit "gemini-2.5-flash";
     GenAI.contents := GenAI.TranslationPrompt languageList text;
     GenAI.config := GenAI.JsonTranslationSchema |}.

Definition speech_request (text : jsstring) : GenAI.GenerateContentParameters :=
  {| GenAI.model := lit "gemini-2.5-flash-preview-tts";
     GenAI.contents := GenAI.Parts [GenAI.TextPart text];
     GenAI.config := GenAI.AudioWithVoice (lit "Kore") |}.

(** *** The three functions *)

Definition transcribeAudio (ai : service) (audioBase64 mimeType : jsstring) : M jsstring :=
  try_catch
    (response <- generateContent ai (transcription_request audioBase64 mimeType) ;;
     match GenAI.text response with
     | Some t => ret (trim t)
     | None => throw TypeError
     end)
    (fun error =>
       console_error (lit "Error during transcription:") error ;;;
       throw (Error msg_transcription_failed)).

(** [parsedResponse.map(...)] with a callback that may throw. *)
Fixpoint map_result {A B : Type} (f : A -> result exn B) (xs : list A)
  : result exn (list B) :=
  match xs with
  | [] => Ok []
  | x :: rest =>
      match f x with
      | Err e => Err e
      | Ok y =>
          match map_result f rest with
          | Err e => Err e
          | Ok ys => Ok (y :: ys)
          end
      end
  end.

(** The callback of [parsedResponse.map] in [translateText]. *)
Definition translation_of_item (targetLanguages : list Language) (item : json)
  : result exn Translation :=
  match get_field item (lit "languageCode"), get_field item (lit "translatedText") with
  | Ok item_languageCode, Ok item_translatedText =>
      let lang := find (fun l => strict_eq_string (code l) item_languageCode) targetLanguages in
      Ok {| languageCode := item_languageCode;
            languageName := match lang with
                            | Some l => Some (JString (name l))
                            | None => item_languageCode
                            end;
            text := item_translatedText |}
  | Err e, _ => Err e
  | _, Err e => Err e
  end.

Section WithParser.

(** [JSON.parse]; [None] is a [SyntaxError]. *)
Variable JSON_parse : jsstring -> option json.

Definition translateText (ai : service) (text : jsstring) (targetLanguages : list Language)
  : M (list Translation) :=
  try_catch
    (response <- generateContent ai (translation_request text targetLanguages) ;;
     match opt_chain (GenAI.text response) JSON_parse with
     | None => throw SyntaxError
     | Some (JArray items) => lift (map_result (translation_of_item targetLanguages) items)
     | Some _ => throw TypeError
     end)
    (fun error =>
       console_error (lit "Error during translation:") error ;;;
       throw (Error msg_translation_failed)).

End WithParser.

Definition generateSpeech (ai : service) (text : jsstring) : M jsstring :=
  try_catch
    (response <- generateContent ai (speech_request text) ;;
     match inline_audio response with
     | None => throw (Error msg_no_audio)
     | Some base64Audio =>
         if is_empty base64Audio then throw (Error msg_no_audio) else ret base64Audio
     end)
    (fun error =>
       console_error (lit "Error generating speech:") error ;;;
       throw (Error msg_speech_failed)).

(** *** Predicates of the specification *)

(** The inline audio data of a response is absent: there is no first
    candidate, the candidate has no content or no first part, the part has
    no inline data, or the inline data has no [data] field. *)
Inductive no_inline_audio (response : GenAI.GenerateContentResponse) : Prop :=
| no_candidates :
    opt_first (GenAI.candidates response) = None -> no_inline_audio response
| no_content candidate :
    opt_first (GenAI.candidates response) = Some candidate ->
    GenAI.content candidate = None -> no_inline_audio response
| no_parts candidate content :
    opt_first (GenAI.candidates response) = Some candidate ->
    GenAI.content candidate = Some content ->
    opt_first (GenAI.parts content) = None -> no_inline_audio response
| no_inlineData candidate content part :
    opt_first (GenAI.candidates response) = Some candidate ->
    GenAI.content candidate = Some content ->
    opt_first (GenAI.parts content) = Some part ->
    GenAI.inlineData part = None -> no_inline_audio response
| no_data candidate content part blob :
    opt_first (GenAI.candidates response) = Some candidate ->
    GenAI.content candidate = Some content ->
    opt_first (GenAI.parts content) = Some part ->
    GenAI.inlineData part = Some blob ->
    GenAI.data blob = None -> no_inline_audio response.

(** A failure of the remote call reaches the caller of [generateSpeech] as
    the very error the call failed with. *)
Definition propagates_unchanged (ai : service) (text : jsstring) (h : history) : Prop :=
  forall e : exn,
    ai h (speech_request text) = Err e ->
    fst (generateSpeech ai text h) = Err e.

(** A language of the list is the first one with a given code. *)
Definition first_with_code (targetLanguages : list Language) (c : jsstring) (l : Language)
  : Prop :=
  exists before after,
    targetLanguages = before ++ l :: after
    /\ code l = c
    /\ Forall (fun l' => code l' <> c) before.

End Service.

(** ** Sample inputs *)

Module Examples.
Import JsString Service.

Definition greeting : jsstring := lit "Dobar dan".

(** A service that rejects every call. *)
Definition unavailable_error : exn := ServiceError (lit "503 Service Unavailable").
Definition unavailable : service := fun _ _ => Err unavailable_error.

(** A service whose response holds no candidate. *)
Definition empty_response : GenAI.GenerateContentResponse :=
  {| GenAI.candidates := Some []; GenAI.text := None |}.
Definition silent : service := fun _ _ => Ok empty_response.

(** A service that transcribes with white space around the text. *)
Definition padded_text : jsstring := lit "  Dobar dan. " ++ [10%N].
Definition padded_response : GenAI.GenerateContentResponse :=
  {| GenAI.candidates := None; GenAI.text := Some padded_text |}.
Definition transcriber : service := fun _ _ => Ok padded_response.

(** A service that answers a translation request with one item whose
    language code is not among the requested ones, and a parser that
    knows that one text. *)
Definition quote : jsstring := [34%N].
Definition translation_text : jsstring :=
  lit "[{" ++ quote ++ lit "languageCode" ++ quote ++ lit ":"
  ++ quote ++ lit "xx" ++ quote ++ lit ","
  ++ quote ++ lit "translatedText" ++ quote ++ lit ":"
  ++ quote ++ lit "Good day" ++ quote ++ lit "}]".
Definition translation_items : list json :=
  [JObject [(lit "languageCode", JString (lit "xx"));
            (lit "translatedText", JString (lit "Good day"))]].
Definition parse_known (s : jsstring) : option json :=
  if eqb s translation_text then Some (JArray translation_items) else None.
Definition translation_response : GenAI.GenerateContentResponse :=
  {| GenAI.candidates := None; GenAI.text := Some translation_text |}.
Definition translator : service := fun _ _ => Ok translation_response.
Definition english : Language :=
  {| code := lit "en"; name := lit "Engleski"; englishName := lit "English" |}.

End Examples.

(** ** Thrown values in the components *)

Module Thrown.
Import JsString Service.

(** A value thrown by the platform or by a helper of [utils/audioUtils]:
    its [message] when it is an [Error], [None] when it is not. *)
Record Foreign : Type := { foreign_message : option jsstring }.

(** What a [catch] of a component can receive. *)
Inductive thrown : Type :=
| FromService (e : exn)
| FromPlatform (f : Foreign).

Section WithRuntime.

(** The message of a thrown value the code did not build itself
    ([TypeError], [SyntaxError], what the SDK rejects with); [None] when
    the value is not an [Error]. *)
Variable describe : exn -> option jsstring.

Definition error_message (t : thrown) : option jsstring :=
  match t with
  | FromService (Error message) => Some message
  | FromService e => describe e
  | FromPlatform f => foreign_message f
  end.

(** [err instanceof Error ? err.message : fallback] *)
Definition shown (fallback : jsstring) (t : thrown) : jsstring :=
  match error_message t with
  | Some message => message
  | None => fallback
  end.

End WithRuntime.

End Thrown.

(** ** The translation card, from [components/TranslationCard] *)

Module Card.
Import JsString Service Playback Thrown.

Record AudioContext : Type := { sampleRate : Z }.

(** [types.ts]; the blob is held as its bytes. *)
Record AudioInfo : Type := { url : jsstring; blob : list Z }.

(** The state of a card, with the module-level [audioContext] the cards
    share. *)
Record CardState : Type := {
  audioContext : option AudioContext;
  isGeneratingAudio : bool;
  audioInfo : option AudioInfo;
  error : jsstring;
  isPlaying : bool
}.

Definition setAudioContext (c : option AudioContext) (s : CardState) : CardState :=
  {| audioContext := c; isGeneratingAudio := isGeneratingAudio s;
     audioInfo := audioInfo s; error := error s; isPlaying := isPlaying s |}.

Definition setIsGeneratingAudio (b : bool) (s : CardState) : CardState :=
  {| audioContext := audioContext s; isGeneratingAudio := b;
     audioInfo := audioInfo s; error := error s; isPlaying := isPlaying s |}.

Definition setAudioInfo (a : option AudioInfo) (s : CardState) : CardState :=
  {| audioContext := audioContext s; isGeneratingAudio := isGeneratingAudio s;
     audioInfo := a; error := error s; isPlaying := isPlaying s |}.

Definition setError (e : jsstring) (s : CardState) : CardState :=
  {| audioContext := audioContext s; isGeneratingAudio := isGeneratingAudio s;
     audioInfo := audioInfo s; error := e; isPlaying := isPlaying s |}.

Definition setIsPlaying (b : bool) (s : CardState) : CardState :=
  {| audioContext := audioContext s; isGeneratingAudio := isGeneratingAudio s;
     audioInfo := audioInfo s; error := error s; isPlaying := b |}.

(** "Nepoznata greška pri generisanju zvuka." *)
Definition unknown_generation_error : jsstring :=
  lit "Nepoznata gre" ++ [353%N] ++ lit "ka pri generisanju zvuka.".

Section WithPlatform.

Variable describe : exn -> option jsstring.

(** [new (window.AudioContext || window.webkitAudioContext)({ sampleRate })] *)
Variable new_AudioContext : Z -> result Foreign AudioContext.

(** The three helpers of [utils/audioUtils] the card imports, and
    [URL.createObjectURL]. *)
Variable decodeBase64 : jsstring -> result Foreign (list Z).
Variable convertUint8ArrayToInt16Array : list Z -> result Foreign (list Z).
Variable pcmToWavBlob : list Z -> Z -> Z -> result Foreign (list Z).
Variable createObjectURL : history -> list Z -> jsstring.

(** [audioContext.createBuffer(1, byteLength / 2, 24000)]: whether the
    allocation succeeds for data of the given byte length. *)
Variable createBuffer : AudioContext -> nat -> bool.

(** Lines 47 to 52 of [handleGenerateAudio]: from the payload to the
    audio info. *)
Definition build_audio (h : history) (base64Audio : jsstring) : result Foreign AudioInfo :=
  bind (decodeBase64 base64Audio) (fun pcmDataUint8 =>
  bind (convertUint8ArrayToInt16Array pcmDataUint8) (fun pcmDataInt16 =>
  bind (pcmToWavBlob pcmDataInt16 24000 1) (fun blob =>
  Ok {| url := createObjectURL h blob; blob := blob |}))).

Definition handleGenerateAudio (ai : service) (translation_text : jsstring)
           (s : CardState) (h : history) : CardState * history :=
  let s1 := setAudioInfo None (setError [] (setIsGeneratingAudio true s)) in
  let caught (s' : CardState) (t : thrown) : CardState :=
    setError (shown describe unknown_generation_error t) s' in
  let finally (r : CardState * history) : CardState * history :=
    (setIsGeneratingAudio false (fst r), snd r) in
  finally
    match (match audioContext s1 with
           | Some c => Ok c
           | None => new_AudioContext 24000
           end) with
    | Err f => (caught s1 (FromPlatform f), h)
    | Ok c =>
        let s2 := setAudioContext (Some c) s1 in
        match generateSpeech ai translation_text h with
        | (Err e, h') => (caught s2 (FromService e), h')
        | (Ok base64Audio, h') =>
            match build_audio h' base64Audio with
            | Err f => (caught s2 (FromPlatform f), h')
            | Ok info => (setAudioInfo (Some info) s2, h')
            end
        end
    end.

(** [handlePlayAudio] up to [source.start()]: the state it leaves and the
    channel data it starts playing, if it gets that far.  Nothing in it
    catches: when the allocation or the typed-array constructor throws,
    the function ends there. *)
Definition handlePlayAudio (s : CardState) : CardState * option (list spec_float) :=
  match audioInfo s, audioContext s with
  | Some info, Some ctx =>
      let s1 := setIsPlaying true s in
      let arrayBuffer := blob info in
      let pcmData := skipn 44 arrayBuffer in
      if createBuffer ctx (length pcmData) then
        match Int16Array_of_buffer pcmData with
        | Ok pcmInt16 => (s1, Some (channelData pcmInt16))
        | Err _ => (s1, None)
        end
      else (s1, None)
  | _, _ => (s, None)
  end.

End WithPlatform.

(** The data path of [handlePlayAudio] alone: from the bytes of the blob
    to the channel data. *)
Definition playback_amplitudes (arrayBuffer : list Z) : result CodecError (list spec_float) :=
  bind (decodeWav arrayBuffer) (fun pcmInt16 => Ok (channelData pcmInt16)).

End Card.

(** ** The application, from [App] *)

Module App.
Import JsString Service Thrown.

Record File : Type := {
  file_name : jsstring;
  file_type : jsstring;
  file_bytes : list Z
}.

Record AppState : Type := {
  audioFile : option File;
  isRecording : bool;
  isLoadingTranscription : bool;
  transcription : jsstring;
  isLoadingTranslation : bool;
  selectedLanguage : option Language;
  translations : list Translation;
  error : jsstring;
  isDropdownOpen : bool
}.

Definition setAudioFile (f : option File) (s : AppState) : AppState :=
  {| audioFile := f; isRecording := isRecording s;
     isLoadingTranscription := isLoadingTranscription s;
     transcription := transcription s;
     isLoadingTranslation := isLoadingTranslation s;
     selectedLanguage := selectedLanguage s; translations := translations s;
     error := error s; isDropdownOpen := isDropdownOpen s |}.

Definition setIsLoadingTranscription (b : bool) (s : AppState) : AppState :=
  {| audioFile := audioFile s; isRecording := isRecording s;
     isLoadingTranscription := b;
     transcription := transcription s;
     isLoadingTranslation := isLoadingTranslation s;
     selectedLanguage := selectedLanguage s; translations := translations s;
     error := error s; isDropdownOpen := isDropdownOpen s |}.

Definition setTranscription (t : jsstring) (s : AppState) : AppState :=
  {| audioFile := audioFile s; isRecording := isRecording s;
     isLoadingTranscription := isLoadingTranscription s;
     transcription := t;
     isLoadingTranslation := isLoadingTranslation s;
     selectedLanguage := selectedLanguage s; translations := translations s;
     error := error s; isDropdownOpen := isDropdownOpen s |}.

Definition setIsLoadingTranslation (b : bool) (s : AppState) : AppState :=
  {| audioFile := audioFile s; isRecording := isRecording s;
     isLoadingTranscription := isLoadingTranscription s;
     transcription := transcription s;
     isLoadingTranslation := b;
     selectedLanguage := selectedLanguage s; translations := translations s;
     error := error s; isDropdownOpen := isDropdownOpen s |}.

Definition setSelectedLanguage (l : option Language) (s : AppState) : AppState :=
  {| audioFile := audioFile s; isRecording := isRecording s;
     isLoadingTranscription := isLoadingTranscription s;
     transcription := transcription s;
     isLoadingTranslation := isLoadingTranslation s;
     selectedLanguage := l; translations := translations s;
     error := error s; isDropdownOpen := isDropdownOpen s |}.

Definition setTranslations (ts : list Translation) (s : AppState) : AppState :=
  {| audioFile := audioFile s; isRecording := isRecording s;
     isLoadingTranscription := isLoadingTranscription s;
     transcription := transcription s;
     isLoadingTranslation := isLoadingTranslation s;
     selectedLanguage := selectedLanguage s; translations := ts;
     error := error s; isDropdownOpen := isDropdownOpen s |}.

Definition setError (e : jsstring) (s : AppState) : AppState :=
  {| audioFile := audioFile s; isRecording := isRecording s;
     isLoadingTranscription := isLoadingTranscription s;
     transcription := transcription s;
     isLoadingTranslation := isLoadingTranslation s;
     selectedLanguage := selectedLanguage s; translations := translations s;
     error := e; isDropdownOpen := isDropdownOpen s |}.

Definition setIsDropdownOpen (b : bool) (s : AppState) : AppState :=
  {| audioFile := audioFile s; isRecording := isRecording s;
     isLoadingTranscription := isLoadingTranscription s;
     transcription := transcription s;
     isLoadingTranslation := isLoadingTranslation s;
     selectedLanguage := selectedLanguage s; translations := translations s;
     error := error s; isDropdownOpen := b |}.

(** The state of the first render. *)
Definition initial : AppState :=
  {| audioFile := None; isRecording := false;
     isLoadingTranscription := false; transcription := [];
     isLoadingTranslation := false; selectedLanguage := None;
     translations := []; error := []; isDropdownOpen := false |}.

(** "Došlo je do nepoznate greške." *)
Definition unknown_error : jsstring :=
  lit "Do" ++ [353%N] ++ lit "lo je do nepoznate gre" ++ [353%N] ++ lit "ke.".

Definition resetState (clearFile : bool) (s : AppState) : AppState :=
  let s1 := if clearFile then setAudioFile None s else s in
  setError [] (setSelectedLanguage None (setTranslations [] (setTranscription [] s1))).

(** [handleFileChange]: [file] is [event.target.files?.[0]]. *)
Definition handleFileChange (file : option File) (s : AppState) : AppState :=
  match file with
  | Some f => setAudioFile (Some f) (resetState false s)
  | None => s
  end.

Definition handleLanguageSelect (lang : Language) (s : AppState) : AppState :=
  setIsDropdownOpen false (setSelectedLanguage (Some lang) s).

Section WithPlatform.

Variable describe : exn -> option jsstring.

(** [fileToBase64] of [utils/audioUtils]. *)
Variable fileToBase64 : File -> result Foreign jsstring.

Variable JSON_parse : jsstring -> option json.

Definition handleBatchTranscription (ai : service) (s : AppState) (h : history)
  : AppState * history :=
  match audioFile s with
  | None => (s, h)
  | Some file =>
      let s1 :=
        setError [] (setSelectedLanguage None (setTranslations []
          (setTranscription [] (setIsLoadingTranscription true s)))) in
      let caught (t : thrown) : AppState :=
        setError (shown describe unknown_error t) s1 in
      let finally (r : AppState * history) : AppState * history :=
        (setIsLoadingTranscription false (fst r), snd r) in
      finally
        match fileToBase64 file with
        | Err f => (caught (FromPlatform f), h)
        | Ok audioBase64 =>
            match transcribeAudio ai audioBase64 (file_type file) h with
            | (Ok result, h') => (setTranscription result s1, h')
            | (Err e, h') => (caught (FromService e), h')
            end
        end
  end.

Definition handleTranslate (ai : service) (s : AppState) (h : history)
  : AppState * history :=
  match selectedLanguage s with
  | None => (s, h)
  | Some lang =>
      if is_empty (transcription s) then (s, h)
      else
        let s1 := setTranslations [] (setError [] (setIsLoadingTranslation true s)) in
        let finally (r : AppState * history) : AppState * history :=
          (setIsLoadingTranslation false (fst r), snd r) in
        finally
          match translateText JSON_parse ai (transcription s) [lang] h with
          | (Ok result, h') => (setTranslations result s1, h')
          | (Err e, h') => (setError (shown describe unknown_error (FromService e)) s1, h')
          end
  end.

End WithPlatform.

End App.

(** ** Sample platforms and states *)

Module Scenarios.
Import JsString Service Thrown.

(** A runtime whose own errors carry no message the model knows. *)
Definition no_describe : exn -> option jsstring := fun _ => None.

(** A platform that grants the audio context it is asked for. *)
Definition make_context : Z -> result Foreign Card.AudioContext :=
  fun rate => Ok {| Card.sampleRate := rate |}.

(** Helpers that pass the bytes through, and a fixed object URL. *)
Definition bytes_of_payload : jsstring -> result Foreign (list Z) :=
  fun payload => Ok (map Z.of_N payload).
Definition keep_bytes : list Z -> result Foreign (list Z) := fun bytes => Ok bytes.
Definition wrap_bytes : list Z -> Z -> Z -> result Foreign (list Z) :=
  fun samples _ _ => Ok (repeat 0 44 ++ samples).
Definition object_url : history -> list Z -> jsstring := fun _ _ => lit "blob:1".

(** A card as first rendered. *)
Definition fresh_card : Card.CardState :=
  {| Card.audioContext := None; Card.isGeneratingAudio := false;
     Card.audioInfo := None; Card.error := []; Card.isPlaying := false |}.

(** A recorded file and a reader that encodes it. *)
Definition recording : App.File :=
  {| App.file_name := lit "snimak.wav"; App.file_type := lit "audio/webm";
     App.file_bytes := [82; 73; 70; 70] |}.
Definition read_file : App.File -> result Foreign jsstring := fun _ => Ok (lit "UklGRg==").

(** The application with the recording chosen. *)
Definition with_recording : App.AppState := App.setAudioFile (Some recording) App.initial.

(** A service that hears nothing: its text is white space only. *)
Definition blank_response : GenAI.GenerateContentResponse :=
  {| GenAI.candidates := None; GenAI.text := Some (lit "  " ++ [10%N]) |}.
Definition hears_nothing : service := fun _ _ => Ok blank_response.

(** The application after a transcription, with a language chosen. *)
Definition ready_to_translate : App.AppState :=
  App.handleLanguageSelect Examples.english
    (App.setTranscription Examples.greeting with_recording).

(** A service that translates one item into the language asked for. *)
Definition english_text : jsstring :=
  lit "[{" ++ Examples.quote ++ lit "languageCode" ++ Examples.quote ++ lit ":"
  ++ Examples.quote ++ lit "en" ++ Examples.quote ++ lit ","
  ++ Examples.quote ++ lit "translatedText" ++ Examples.quote ++ lit ":"
  ++ Examples.quote ++ lit "Good day" ++ Examples.quote ++ lit "}]".
Definition english_items : list json :=
  [JObject [(lit "languageCode", JString (lit "en"));
            (lit "translatedText", JString (lit "Good day"))]].
Definition parse_english (s : jsstring) : option json :=
  if eqb s english_text then Some (JArray english_items) else None.
Definition english_response : GenAI.GenerateContentResponse :=
  {| GenAI.candidates := None; GenAI.text := Some english_text |}.
Definition to_english : service := fun _ _ => Ok english_response.

End Scenarios.

(** ** Properties of the codec *)

Section CodecFacts.
Import Pcm Playback AudioUtils.

Lemma to_int16_range (u : Z) : 0 <= u < 65536 -> is_pcm_sample (to_int16 u).
Proof.
  unfold to_int16, is_pcm_sample. intros Hu.
  destruct (32768 <=? u) eqn:E; [apply Z.leb_le in E | apply Z.leb_gt in E]; lia.
Qed.

Lemma int16_of_le_range (lo hi : Z) :
  is_byte lo -> is_byte hi -> is_pcm_sample (int16_of_le lo hi).
Proof.
  unfold is_byte, int16_of_le. intros Hl Hh. apply to_int16_range. lia.
Qed.

(** Writing a sample to memory and reading it back. *)
Lemma int16_le_inverse (s : Z) :
  is_pcm_sample s -> int16_of_le (s mod 256) ((s / 256) mod 256) = s.
Proof.
  unfold is_pcm_sample, int16_of_le, to_int16. intros Hs.
  assert (Hd : s = 256 * (s / 256) + s mod 256) by (apply Z.div_mod; lia).
  assert (Hm : 0 <= s mod 256 < 256) by (apply Z.mod_pos_bound; lia).
  assert (Hq : -128 <= s / 256 <= 127) by lia.
  destruct (Z_lt_le_dec s 0) as [Hneg | Hpos].
  - assert (Hw : (s / 256) mod 256 = s / 256 + 256).
    { symmetry. apply (Z.mod_unique_pos _ _ (-1)); lia. }
    rewrite Hw.
    destruct (32768 <=? s mod 256 + 256 * (s / 256 + 256)) eqn:E;
      [apply Z.leb_le in E | apply Z.leb_gt in E]; lia.
  - assert (Hw : (s / 256) mod 256 = s / 256).
    { apply Z.mod_small. lia. }
    rewrite Hw.
    destruct (32768 <=? s mod 256 + 256 * (s / 256)) eqn:E;
      [apply Z.leb_le in E | apply Z.leb_gt in E]; lia.
Qed.

Lemma samples_of_bytes_of_samples (p : list Z) :
  Forall is_pcm_sample p -> samples_of_bytes (bytes_of_samples p) = p.
Proof.
  induction 1 as [| s p Hs _ IH]; simpl.
  - reflexivity.
  - rewrite int16_le_inverse by assumption. now rewrite IH.
Qed.

Lemma bytes_of_samples_length (p : list Z) :
  length (bytes_of_samples p) = (2 * length p)%nat.
Proof.
  induction p as [| s p IH]; simpl; [reflexivity | rewrite IH; lia].
Qed.

Lemma wav_header_length (n r c : Z) : length (wav_header n r c) = 44%nat.
Proof. reflexivity. Qed.

Lemma skip_wav_header (n r c : Z) (data : list Z) :
  skipn 44 (wav_header n r c ++ data) = data.
Proof. reflexivity. Qed.

(** With a positive rate and channel count the encoder succeeds. *)
Lemma pcmToWavBlob_valid (pcmData : list Z) (sampleRate numChannels : Z) :
  0 < sampleRate -> 0 < numChannels ->
  pcmToWavBlob pcmData sampleRate numChannels
  = Ok (wav_header (Z.of_nat (length pcmData)) sampleRate numChannels
        ++ bytes_of_samples pcmData).
Proof.
  intros HR HC. unfold pcmToWavBlob.
  destruct (Z.leb_spec sampleRate 0); [lia |].
  destruct (Z.leb_spec numChannels 0); [lia |].
  reflexivity.
Qed.

Lemma even_double (n : nat) : Nat.even (2 * n) = true.
Proof. apply Nat.even_spec. now exists n. Qed.

(** Induction over a list two elements at a time. *)
Lemma list_pair_ind {A : Type} (Q : list A -> Prop) :
  Q [] -> (forall a, Q [a]) -> (forall a b l, Q l -> Q (a :: b :: l)) ->
  forall l, Q l.
Proof.
  intros H0 H1 H2 l.
  enough (H : Q l /\ forall a, Q (a :: l)) by apply H.
  induction l as [| b l [IHl IHc]]; split; auto.
Qed.

Lemma half_SS (n : nat) : Nat.div (S (S n)) 2 = S (Nat.div n 2).
Proof.
  replace (S (S n)) with (n + 1 * 2)%nat by lia.
  rewrite Nat.div_add by lia. lia.
Qed.

Lemma samples_of_bytes_length (raw : list Z) :
  length (samples_of_bytes raw) = Nat.div (length raw) 2.
Proof.
  induction raw as [| a | a b l IH] using list_pair_ind; try reflexivity.
  cbn [samples_of_bytes length]. now rewrite half_SS, IH.
Qed.

Lemma samples_of_bytes_range (raw : list Z) :
  Forall is_byte raw -> Forall is_pcm_sample (samples_of_bytes raw).
Proof.
  induction raw as [| a | a b l IH] using list_pair_ind; intros H; cbn [samples_of_bytes].
  - constructor.
  - constructor.
  - inversion H as [| ? ? Ha H']; subst. inversion H' as [| ? ? Hb Hl]; subst.
    constructor; [now apply int16_of_le_range | now apply IH].
Qed.

(** Sample [i] is read from bytes [2i] and [2i+1]. *)
Lemma samples_of_bytes_nth (raw : list Z) (i : nat) (lo hi : Z) :
  nth_error raw (2 * i) = Some lo ->
  nth_error raw (2 * i + 1) = Some hi ->
  nth_error (samples_of_bytes raw) i = Some (int16_of_le lo hi).
Proof.
  revert raw. induction i as [| i IH]; intros [| a [| b rest]]; cbn; try discriminate.
  - intros [= ->] [= ->]. reflexivity.
  - replace (i + S (i + 0))%nat with (S (2 * i)) by lia.
    replace (i + S (i + 0) + 1)%nat with (S (2 * i + 1)) by lia.
    cbn. destruct (2 * i)%nat; discriminate.
  - replace (i + S (i + 0))%nat with (S (2 * i)) by lia.
    replace (i + S (i + 0) + 1)%nat with (S (2 * i + 1)) by lia.
    cbn [nth_error]. apply IH.
Qed.

Lemma even_odd_false (n : nat) : Nat.odd n = true -> Nat.even n = false.
Proof. unfold Nat.odd. now destruct (Nat.even n). Qed.

End CodecFacts.

(** ** The claims about the codec *)

Section CodecClaims.
Import Pcm Playback AudioUtils.

(** C1. Round trip: for every buffer of 16-bit samples, every positive
    sample rate and every positive channel count, the encoder succeeds and
    decoding its container (dropping the 44 header bytes and reading the
    rest as little-endian signed 16-bit samples) gives the buffer back. *)
Theorem wav_round_trip (P : list Z) (R C : Z) :
  Forall is_pcm_sample P -> 0 < R -> 0 < C ->
  bind (encodeWav P R C) decodeWav = Ok P.
Proof.
  intros HP HR HC. unfold encodeWav.
  rewrite pcmToWavBlob_valid by assumption. cbn [bind]. unfold decodeWav.
  rewrite skip_wav_header. unfold Int16Array_of_buffer.
  rewrite bytes_of_samples_length, even_double.
  now rewrite samples_of_bytes_of_samples.
Qed.

Lemma wav_round_trip_witness :
  bind (encodeWav [1; -1; -32768; 32767] 24000 1) decodeWav
  = Ok [1; -1; -32768; 32767].
Proof.
  apply (wav_round_trip [1; -1; -32768; 32767] 24000 1).
  - repeat constructor; unfold is_pcm_sample; lia.
  - lia.
  - lia.
Defined.

(** C2. For an even-length byte input the converter succeeds, and sample
    [i] of its result is the little-endian two's-complement signed 16-bit
    integer with low byte [2i] and high byte [2i+1]; the samples are in the
    16-bit range when the input holds bytes.  The pair [0xFF, 0xFF] reads as
    -1 and the pair [0x00, 0x80] as -32768. *)
Theorem convert_little_endian_signed :
  (forall raw : list Z,
      Nat.even (length raw) = true ->
      exists pcm,
        convertUint8ArrayToInt16Array raw = Ok pcm
        /\ (forall i lo hi,
               nth_error raw (2 * i) = Some lo ->
               nth_error raw (2 * i + 1) = Some hi ->
               nth_error pcm i = Some (to_int16 (lo + 256 * hi)))
        /\ (Forall is_byte raw -> Forall is_pcm_sample pcm))
  /\ convertUint8ArrayToInt16Array [255; 255] = Ok [-1]
  /\ convertUint8ArrayToInt16Array [0; 128] = Ok [-32768].
Proof.
  split; [| split; reflexivity].
  intros raw Heven. exists (samples_of_bytes raw).
  unfold convertUint8ArrayToInt16Array. rewrite Heven.
  split; [reflexivity |]. split.
  - intros i lo hi Hlo Hhi. now apply samples_of_bytes_nth.
  - apply samples_of_bytes_range.
Qed.

Lemma convert_little_endian_signed_witness :
  exists pcm,
    convertUint8ArrayToInt16Array [1; 0; 254; 255; 0; 128] = Ok pcm
    /\ nth_error pcm 1 = Some (-2).
Proof.
  destruct (proj1 convert_little_endian_signed [1; 0; 254; 255; 0; 128] eq_refl)
    as (pcm & Hok & Hnth & _).
  exists pcm. split; [exact Hok |].
  exact (Hnth 1%nat 254 255 eq_refl eq_refl).
Defined.

(** C6. An odd-length byte input makes the converter fail with
    [MalformedAudioError], so no buffer, partial or otherwise, is produced;
    an even-length input makes it succeed with half as many samples as
    there are bytes. *)
Theorem convert_length_parity (raw : list Z) :
  (Nat.odd (length raw) = true ->
   convertUint8ArrayToInt16Array raw = Err MalformedAudioError)
  /\ (Nat.even (length raw) = true ->
      exists pcm,
        convertUint8ArrayToInt16Array raw = Ok pcm
        /\ length pcm = Nat.div (length raw) 2).
Proof.
  unfold convertUint8ArrayToInt16Array. split; intros H.
  - now rewrite (even_odd_false _ H).
  - rewrite H. exists (samples_of_bytes raw). split; [reflexivity |].
    apply samples_of_bytes_length.
Qed.

Lemma convert_length_parity_witness :
  convertUint8ArrayToInt16Array [1; 0; 2] = Err MalformedAudioError
  /\ exists pcm,
      convertUint8ArrayToInt16Array [1; 0; 2; 0] = Ok pcm /\ length pcm = 2%nat.
Proof.
  split.
  - exact (proj1 (convert_length_parity [1; 0; 2]) eq_refl).
  - exact (proj2 (convert_length_parity [1; 0; 2; 0]) eq_refl).
Defined.

(** C7. An empty buffer, with any positive sample rate and channel count,
    encodes to a container of exactly 44 bytes whose data sub-chunk size
    field is 0 (and whose RIFF size field is therefore 36 + 0). *)
Theorem encodeWav_empty (R C : Z) :
  0 < R -> 0 < C ->
  exists wav,
    encodeWav [] R C = Ok wav
    /\ length wav = 44%nat
    /\ data_size_field wav = 0
    /\ riff_size_field wav = 36.
Proof.
  intros HR HC. unfold encodeWav.
  rewrite pcmToWavBlob_valid by assumption.
  eexists. split; [reflexivity |]. repeat split.
Qed.

Lemma encodeWav_empty_witness :
  exists wav,
    encodeWav [] 24000 1 = Ok wav
    /\ length wav = 44%nat
    /\ data_size_field wav = 0
    /\ riff_size_field wav = 36.
Proof. apply (encodeWav_empty 24000 1); lia. Defined.

End CodecClaims.

(** ** Properties of the playback amplitudes *)

Section FloatFacts.
Import Pcm Playback.

Lemma digits2_iter_xO (m k : positive) :
  Zpos (digits2_pos (Pos.iter xO m k)) = Zpos (digits2_pos m) + Zpos k.
Proof.
  induction k as [| k IH] using Pos.peano_ind.
  - cbn. lia.
  - rewrite Pos.iter_succ. cbn [digits2_pos]. lia.
Qed.

Lemma iter_pos_iter {A : Type} (f : A -> A) (k : positive) (x : A) :
  iter_pos f k x = Pos.iter f x k.
Proof.
  revert x. induction k as [k IH | k IH |]; intros x; cbn.
  - rewrite !IH. now rewrite <- !Pos.iter_swap.
  - now rewrite !IH.
  - reflexivity.
Qed.

Lemma shr_trailing_zeros (m k : positive) :
  iter_pos shr_1 k {| shr_m := Zpos (Pos.iter xO m k); shr_r := false; shr_s := false |}
  = {| shr_m := Zpos m; shr_r := false; shr_s := false |}.
Proof.
  rewrite iter_pos_iter.
  induction k as [| k IH] using Pos.peano_ind.
  - reflexivity.
  - rewrite (Pos.iter_succ_r k _ shr_1), (Pos.iter_succ k _ xO). cbn [shr_1 orb]. exact IH.
Qed.

Lemma round_aux_canonical (prec emax : Z) (sx : bool) (m : positive) (e : Z) :
  Zpos (digits2_pos m) = prec -> emin prec emax <= e -> e <= emax - prec ->
  binary_round_aux prec emax sx (Zpos m) e loc_Exact = S754_finite sx m e.
Proof.
  intros Hd Hlo Hhi.
  assert (E : shr_fexp prec emax (Zpos m) e loc_Exact
              = ({| shr_m := Zpos m; shr_r := false; shr_s := false |}, e)).
  { unfold shr_fexp. cbn [Zdigits2 shr_record_of_loc].
    replace (fexp prec emax (Zpos (digits2_pos m) + e) - e) with 0
      by (unfold fexp; lia).
    reflexivity. }
  unfold binary_round_aux. rewrite E. cbn [shr_m loc_of_shr_record round_nearest_even].
  rewrite E. cbn [shr_m].
  apply Z.leb_le in Hhi. now rewrite Hhi.
Qed.

Lemma round_aux_trailing_zeros (prec emax : Z) (sx : bool) (m k : positive) (e : Z) :
  Zpos (digits2_pos m) = prec ->
  emin prec emax <= e + Zpos k -> e + Zpos k <= emax - prec ->
  binary_round_aux prec emax sx (Zpos (Pos.iter xO m k)) e loc_Exact
  = S754_finite sx m (e + Zpos k).
Proof.
  intros Hd Hlo Hhi.
  assert (E1 : shr_fexp prec emax (Zpos (Pos.iter xO m k)) e loc_Exact
               = ({| shr_m := Zpos m; shr_r := false; shr_s := false |}, e + Zpos k)).
  { unfold shr_fexp. cbn [Zdigits2 shr_record_of_loc].
    rewrite digits2_iter_xO.
    replace (fexp prec emax (Zpos (digits2_pos m) + Zpos k + e) - e) with (Zpos k)
      by (unfold fexp; lia).
    cbn [shr]. now rewrite shr_trailing_zeros. }
  assert (E2 : shr_fexp prec emax (Zpos m) (e + Zpos k) loc_Exact
               = ({| shr_m := Zpos m; shr_r := false; shr_s := false |}, e + Zpos k)).
  { unfold shr_fexp. cbn [Zdigits2 shr_record_of_loc].
    replace (fexp prec emax (Zpos (digits2_pos m) + (e + Zpos k)) - (e + Zpos k)) with 0
      by (unfold fexp; lia).
    reflexivity. }
  unfold binary_round_aux. rewrite E1. cbn [shr_m loc_of_shr_record round_nearest_even].
  rewrite E2. cbn [shr_m].
  apply Z.leb_le in Hhi. now rewrite Hhi.
Qed.

Lemma number_of_short (sx : bool) (m k : positive) :
  Zpos (digits2_pos m) + Zpos k = 53 ->
  binary_round 53 1024 sx m 0 = S754_finite sx (Pos.iter xO m k) (Zneg k).
Proof.
  intros Hd. unfold binary_round.
  replace (fexp 53 1024 (Zpos (digits2_pos m) + 0)) with (Zneg k)
    by (unfold fexp, emin; lia).
  cbn [shl_align Z.sub Z.opp Z.add].
  apply round_aux_canonical.
  - rewrite digits2_iter_xO. exact Hd.
  - unfold emin. lia.
  - lia.
Qed.

Lemma div_by_32768 (sx : bool) (M : positive) (e : Z) :
  Zpos (digits2_pos M) = 53 -> -1058 <= e <= 900 ->
  SFdiv 53 1024 (S754_finite sx M e) (S754_finite false two52 (-37))
  = S754_finite sx M (e - 15).
Proof.
  intros Hd He. unfold SFdiv.
  assert (E : SFdiv_core_binary 53 1024 (Zpos M) e (Zpos two52) (-37)
              = (Zpos (Pos.iter xO M 1), e - 16, loc_Exact)).
  { unfold SFdiv_core_binary. cbn [Zdigits2]. rewrite Hd.
    change (Zpos (digits2_pos two52)) with 53.
    replace (Z.min (fexp 53 1024 (53 + e - (53 + -37))) (e - -37)) with (e - 16)
      by (unfold fexp, emin; lia).
    replace (e - -37 - (e - 16)) with 53 by lia.
    assert (Hq : Z.shiftl (Zpos M) 53 = Zpos (Pos.iter xO M 1) * Zpos two52).
    { rewrite Z.shiftl_mul_pow2 by lia. cbn [Pos.iter]. 
      change (2 ^ 53) with (2 * Zpos two52). lia. }
    rewrite Hq.
    pose proof (Z.div_mul (Zpos (Pos.iter xO M 1)) (Zpos two52) ltac:(lia)) as Hdiv.
    pose proof (Z.mod_mul (Zpos (Pos.iter xO M 1)) (Zpos two52) ltac:(lia)) as Hmod.
    unfold Z.div, Z.modulo in Hdiv, Hmod.
    destruct (Z.div_eucl (Zpos (Pos.iter xO M 1) * Zpos two52) (Zpos two52)) as [q r].
    subst q r. reflexivity. }
  rewrite E. rewrite xorb_false_r.
  rewrite round_aux_trailing_zeros.
  - f_equal. lia.
  - exact Hd.
  - unfold emin. lia.
  - lia.
Qed.

Lemma to_float32_exact (sx : bool) (m : positive) (e : Z) :
  Zpos (digits2_pos m) = 24 -> -149 <= e + 29 <= 104 ->
  binary_round 24 128 sx (Pos.iter xO m 29) e = S754_finite sx m (e + 29).
Proof.
  intros Hd He. unfold binary_round.
  rewrite digits2_iter_xO, Hd.
  replace (fexp 24 128 (24 + 29 + e)) with (e + 29) by (unfold fexp, emin; lia).
  unfold shl_align. replace (e + 29 - e) with 29 by lia.
  apply round_aux_trailing_zeros.
  - exact Hd.
  - unfold emin. lia.
  - lia.
Qed.

Lemma literal_32768 : number_of_int 32768 = S754_finite false two52 (-37).
Proof. reflexivity. Qed.

Lemma normalize_finite (sx : bool) (m k : positive) :
  Zpos (digits2_pos m) + Zpos k = 24 ->
  to_float32 (number_div (binary_round 53 1024 sx m 0) (number_of_int 32768))
  = S754_finite sx (Pos.iter xO m k) (Zneg k - 15).
Proof.
  intros Hd. rewrite literal_32768.
  rewrite (number_of_short sx m (29 + k)) by lia.
  unfold number_div. rewrite div_by_32768.
  - unfold to_float32. rewrite Pos.iter_add, to_float32_exact.
    + f_equal. lia.
    + rewrite digits2_iter_xO. exact Hd.
    + lia.
  - rewrite digits2_iter_xO. lia.
  - lia.
Qed.

Lemma digits2_pos_lower (m : positive) : 2 ^ (Zpos (digits2_pos m) - 1) <= Zpos m.
Proof.
  induction m as [m IH | m IH |]; cbn [digits2_pos].
  - rewrite Pos2Z.inj_succ. replace (Z.succ (Zpos (digits2_pos m)) - 1)
      with (Z.succ (Zpos (digits2_pos m) - 1)) by lia.
    rewrite Z.pow_succ_r by lia. lia.
  - rewrite Pos2Z.inj_succ. replace (Z.succ (Zpos (digits2_pos m)) - 1)
      with (Z.succ (Zpos (digits2_pos m) - 1)) by lia.
    rewrite Z.pow_succ_r by lia. lia.
  - cbn. lia.
Qed.

Lemma digits2_pos_int16 (m : positive) : Zpos m <= 32768 -> Zpos (digits2_pos m) <= 16.
Proof.
  intros Hm. pose proof (digits2_pos_lower m) as Hlow.
  destruct (Z_le_gt_dec (Zpos (digits2_pos m)) 16) as [H | H]; [exact H | exfalso].
  assert (2 ^ 16 <= 2 ^ (Zpos (digits2_pos m) - 1)) by (apply Z.pow_le_mono_r; lia).
  change (2 ^ 16) with 65536 in *. lia.
Qed.

Lemma iter_xO_value (m k : positive) : Zpos (Pos.iter xO m k) = Zpos m * 2 ^ Zpos k.
Proof.
  induction k as [| k IH] using Pos.peano_ind.
  - cbn. lia.
  - rewrite Pos.iter_succ, Pos2Z.inj_xO, IH, Pos2Z.inj_succ, Z.pow_succ_r by lia. lia.
Qed.

Lemma scaled_value (z : Z) (k : positive) :
  (inject_Z (z * 2 ^ Zpos k) * Qpower 2 (Zneg k - 15) == z # 32768)%Q.
Proof.
  replace (Zneg k - 15) with (- (Zpos k) + - 15) by lia.
  rewrite Qpower_plus by discriminate.
  rewrite Qpower_opp. rewrite inject_Z_mult.
  rewrite (Zpower_Qpower 2 (Zpos k)) by lia.
  change (Qpower 2 (-15)) with (1 # 32768)%Q.
  assert (Hnz : ~ (inject_Z 2 ^ Zpos k == 0)%Q).
  { apply Qpower_not_0. discriminate. }
  rewrite (Qmake_Qdiv z 32768).
  change (inject_Z 2) with 2%Q in *.
  field. exact Hnz.
Qed.

End FloatFacts.

Section FloatClaims.
Import Pcm Playback.

Lemma normalize_nonzero (sx : bool) (m : positive) :
  Zpos m <= 32768 ->
  exists q,
    SF2Q (to_float32 (number_div (binary_round 53 1024 sx m 0) (number_of_int 32768)))
    = Some q
    /\ (q == cond_Zopp sx (Zpos m) # 32768)%Q.
Proof.
  intros Hm. pose proof (digits2_pos_int16 m Hm) as Hd.
  set (k := Z.to_pos (24 - Zpos (digits2_pos m))).
  assert (Hk : Zpos (digits2_pos m) + Zpos k = 24) by (unfold k; lia).
  rewrite (normalize_finite sx m k Hk). eexists. split; [reflexivity |].
  rewrite iter_xO_value.
  replace (cond_Zopp sx (Zpos m * 2 ^ Zpos k))
    with (cond_Zopp sx (Zpos m) * 2 ^ Zpos k) by (destruct sx; cbn [cond_Zopp]; lia).
  apply scaled_value.
Qed.

Lemma normalize_value (s : Z) :
  is_pcm_sample s ->
  exists q, SF2Q (normalize s) = Some q /\ (q == s # 32768)%Q.
Proof.
  unfold is_pcm_sample. intros Hs. destruct s as [| m | m].
  - exists 0%Q. split; reflexivity.
  - apply (normalize_nonzero false m). lia.
  - apply (normalize_nonzero true m). lia.
Qed.

(** C3. Every 16-bit sample [s] is mapped by the playback loop to the
    float whose value is exactly [s / 32768], which lies in [-1, 1); the
    sample -32768 is mapped to -1.0 and the sample 32767 to 32767/32768,
    which is 0.99997 to five places. *)
Theorem normalize_amplitude :
  (forall s : Z,
      is_pcm_sample s ->
      exists q,
        SF2Q (normalize s) = Some q
        /\ (q == s # 32768)%Q /\ (-1 <= q)%Q /\ (q < 1)%Q)
  /\ normalize (-32768) = S754_finite true 8388608 (-23)
  /\ (exists q, SF2Q (normalize (-32768)) = Some q /\ (q == -1)%Q)
  /\ (exists q,
        SF2Q (normalize 32767) = Some q
        /\ (q == 32767 # 32768)%Q /\ (99996 # 100000 < q)%Q /\ (q < 99998 # 100000)%Q).
Proof.
  split; [| split; [| split]].
  - intros s Hs. destruct (normalize_value s Hs) as (q & Hq & Hv).
    exists q. split; [exact Hq |]. split; [exact Hv |].
    rewrite Hv. unfold is_pcm_sample in Hs. unfold Qle, Qlt. cbn. lia.
  - reflexivity.
  - eexists. split; reflexivity.
  - eexists. split; [reflexivity |]. repeat split.
Qed.

Lemma normalize_amplitude_witness :
  exists q,
    SF2Q (normalize (-12345)) = Some q
    /\ (q == -12345 # 32768)%Q /\ (-1 <= q)%Q /\ (q < 1)%Q.
Proof.
  apply (proj1 normalize_amplitude (-12345)). unfold is_pcm_sample. lia.
Defined.

(** The whole loop: every element of the channel data is exact. *)
Lemma channelData_exact (pcmInt16 : list Z) :
  Forall is_pcm_sample pcmInt16 ->
  Forall2 (fun s f => exists q, SF2Q f = Some q /\ (q == s # 32768)%Q)
          pcmInt16 (channelData pcmInt16).
Proof.
  induction 1 as [| s pcm Hs _ IH]; cbn [channelData map]; constructor.
  - now apply normalize_value.
  - exact IH.
Qed.

End FloatClaims.

(** ** Properties of strings *)

Section StringFacts.
Import JsString.

Lemma eqb_eq (s t : jsstring) : eqb s t = true <-> s = t.
Proof.
  revert t. induction s as [| c s IH]; intros [| d t]; cbn; split;
    try discriminate; try reflexivity.
  - intros H. apply andb_prop in H as [Hc Hs].
    apply N.eqb_eq in Hc. apply IH in Hs. now subst.
  - intros [= -> ->]. rewrite N.eqb_refl. now apply IH.
Qed.

Lemma eqb_neq (s t : jsstring) : eqb s t = false <-> s <> t.
Proof.
  split.
  - intros H E. apply eqb_eq in E. congruence.
  - intros H. destruct (eqb s t) eqn:E; [| reflexivity].
    apply eqb_eq in E. contradiction.
Qed.

Lemma trimStart_head (s : jsstring) (c : N) (rest : jsstring) :
  trimStart s = c :: rest -> is_white_space c = false.
Proof.
  induction s as [| d s IH]; cbn [trimStart]; [discriminate |].
  destruct (is_white_space d) eqn:E; [exact IH |].
  intros [= <- _]. exact E.
Qed.

Lemma trimStart_suffix (s : jsstring) : exists dropped, s = dropped ++ trimStart s.
Proof.
  induction s as [| d s [dropped IH]]; cbn [trimStart].
  - now exists [].
  - destruct (is_white_space d).
    + exists (d :: dropped). cbn. now rewrite <- IH.
    + now exists [].
Qed.

Lemma trimEnd_last (s init : jsstring) (c : N) :
  trimEnd s = init ++ [c] -> is_white_space c = false.
Proof.
  unfold trimEnd. intros H.
  apply (f_equal (@rev N)) in H. rewrite rev_involutive, rev_unit in H.
  exact (trimStart_head _ _ _ H).
Qed.

Lemma trimEnd_prefix (s : jsstring) : exists dropped, s = trimEnd s ++ dropped.
Proof.
  unfold trimEnd. destruct (trimStart_suffix (rev s)) as [dropped H].
  exists (rev dropped).
  rewrite <- rev_app_distr, <- H. now rewrite rev_involutive.
Qed.

Lemma trim_head (s : jsstring) (c : N) (rest : jsstring) :
  trim s = c :: rest -> is_white_space c = false.
Proof.
  unfold trim. intros H.
  destruct (trimEnd_prefix (trimStart s)) as [dropped Hp].
  rewrite H in Hp. cbn in Hp. exact (trimStart_head _ _ _ Hp).
Qed.

Lemma trim_last (s init : jsstring) (c : N) :
  trim s = init ++ [c] -> is_white_space c = false.
Proof. unfold trim. apply trimEnd_last. Qed.

End StringFacts.

(** ** Properties of the service adapter *)

(** Running a computation: the operations of [M] unfolded. *)
Ltac run_M :=
  unfold Service.try_catch, Service.mbind, Service.generateContent,
    Service.console_error, Service.throw, Service.ret, Service.lift.

Section ServiceFacts.
Import JsString Service.

Lemma calls_app (h h' : history) : calls (h ++ h') = (calls h + calls h')%nat.
Proof. unfold calls. now rewrite filter_app, length_app. Qed.

Lemma inline_audio_absent (response : GenAI.GenerateContentResponse) :
  no_inline_audio response <-> inline_audio response = None.
Proof.
  unfold inline_audio. split.
  - intros [H | c H1 H2 | c ct H1 H2 H3 | c ct p H1 H2 H3 H4 | c ct p b H1 H2 H3 H4 H5].
    + now rewrite H.
    + rewrite H1. cbn. now rewrite H2.
    + rewrite H1. cbn. rewrite H2. cbn. now rewrite H3.
    + rewrite H1. cbn. rewrite H2. cbn. rewrite H3. cbn. now rewrite H4.
    + rewrite H1. cbn. rewrite H2. cbn. rewrite H3. cbn. rewrite H4. cbn. exact H5.
  - destruct (opt_first (GenAI.candidates response)) as [c |] eqn:H1;
      [| intros _; now apply no_candidates].
    cbn [opt_chain].
    destruct (GenAI.content c) as [ct |] eqn:H2;
      [| intros _; now apply (no_content _ c)].
    cbn [opt_chain].
    destruct (opt_first (GenAI.parts ct)) as [p |] eqn:H3;
      [| intros _; now apply (no_parts _ c ct)].
    cbn [opt_chain].
    destruct (GenAI.inlineData p) as [b |] eqn:H4;
      [| intros _; now apply (no_inlineData _ c ct p)].
    cbn [opt_chain]. intros H5. now apply (no_data _ c ct p b).
Qed.

(** What [generateSpeech] does when the remote call fails. *)
Lemma generateSpeech_on_failure (ai : service) (text : jsstring) (h : history) (e : exn) :
  ai h (speech_request text) = Err e ->
  generateSpeech ai text h
  = (Err (Error msg_speech_failed),
     h ++ [Called (speech_request text)]
       ++ [ConsoleError (lit "Error generating speech:") e]).
Proof.
  intros H. unfold generateSpeech. run_M.
  rewrite H. now rewrite <- app_assoc.
Qed.

(** What it does when the call succeeds with a response that holds no
    usable audio. *)
Lemma generateSpeech_on_missing_audio (ai : service) (text : jsstring) (h : history)
      (response : GenAI.GenerateContentResponse) :
  ai h (speech_request text) = Ok response ->
  inline_audio response = None \/ inline_audio response = Some [] ->
  generateSpeech ai text h
  = (Err (Error msg_speech_failed),
     h ++ [Called (speech_request text)]
       ++ [ConsoleError (lit "Error generating speech:") (Error msg_no_audio)]).
Proof.
  intros H Ha. unfold generateSpeech. run_M.
  rewrite H. destruct Ha as [-> | ->]; cbn [is_empty]; now rewrite <- app_assoc.
Qed.

(** What it does when the call succeeds with audio. *)
Lemma generateSpeech_on_audio (ai : service) (text : jsstring) (h : history)
      (response : GenAI.GenerateContentResponse) (c : N) (payload : jsstring) :
  ai h (speech_request text) = Ok response ->
  inline_audio response = Some (c :: payload) ->
  generateSpeech ai text h = (Ok (c :: payload), h ++ [Called (speech_request text)]).
Proof.
  intros H Ha. unfold generateSpeech. run_M.
  rewrite H, Ha. reflexivity.
Qed.

(** Whatever the service answers, [generateSpeech] calls it exactly once. *)
Lemma generateSpeech_calls_once (ai : service) (text : jsstring) (h : history) :
  calls (snd (generateSpeech ai text h)) = S (calls h).
Proof.
  destruct (ai h (speech_request text)) as [response | e] eqn:H.
  - destruct (inline_audio response) as [[| c rest] |] eqn:Ha.
    + rewrite (generateSpeech_on_missing_audio ai text h response H (or_intror Ha)).
      cbn [snd]. rewrite calls_app. cbn. lia.
    + rewrite (generateSpeech_on_audio ai text h response c rest H Ha).
      cbn [snd]. rewrite calls_app. cbn. lia.
    + rewrite (generateSpeech_on_missing_audio ai text h response H (or_introl Ha)).
      cbn [snd]. rewrite calls_app. cbn. lia.
  - rewrite (generateSpeech_on_failure ai text h e H).
    cbn [snd]. rewrite calls_app. cbn. lia.
Qed.

Lemma find_first {A : Type} (f : A -> bool) (l : list A) (x : A) :
  find f l = Some x ->
  exists before after,
    l = before ++ x :: after /\ f x = true /\ Forall (fun y => f y = false) before.
Proof.
  induction l as [| a l IH]; cbn [find]; [discriminate |].
  destruct (f a) eqn:E.
  - intros [= ->]. exists [], l. repeat split; [exact E | constructor].
  - intros H. destruct (IH H) as (before & after & -> & Hx & Hb).
    exists (a :: before), after. repeat split; [exact Hx | now constructor].
Qed.

Lemma find_first_unique {A : Type} (f : A -> bool) (before after : list A) (x : A) :
  f x = true -> Forall (fun y => f y = false) before ->
  find f (before ++ x :: after) = Some x.
Proof.
  intros Hx. induction 1 as [| a before Ha _ IH]; cbn [find app].
  - now rewrite Hx.
  - now rewrite Ha.
Qed.

Lemma map_result_Forall2 {A B : Type} (f : A -> result exn B) (xs : list A) :
  Forall (fun x => is_ok (f x) = true) xs ->
  exists ys, map_result f xs = Ok ys /\ Forall2 (fun x y => f x = Ok y) xs ys.
Proof.
  induction 1 as [| x xs Hx _ (ys & Hys & Hall)]; cbn [map_result].
  - exists []. split; [reflexivity | constructor].
  - destruct (f x) as [y |] eqn:E; [| discriminate].
    rewrite Hys. exists (y :: ys). split; [reflexivity | now constructor].
Qed.

Lemma translation_of_item_ok (targetLanguages : list Language) (item : json) :
  item <> JNull -> is_ok (translation_of_item targetLanguages item) = true.
Proof. intros H. destruct item; [contradiction | reflexivity ..]. Qed.

(** The language name a translation carries. *)
Lemma translation_of_item_name (targetLanguages : list Language) (item : json)
      (tr : Translation) :
  translation_of_item targetLanguages item = Ok tr ->
  get_field item (lit "languageCode") = Ok (languageCode tr)
  /\ languageName tr
     = match find (fun l => strict_eq_string (code l) (languageCode tr)) targetLanguages with
       | Some l => Some (JString (name l))
       | None => languageCode tr
       end.
Proof.
  unfold translation_of_item.
  destruct (get_field item (lit "languageCode")) as [c |];
    destruct (get_field item (lit "translatedText")) as [t |]; try discriminate.
  intros [= <-]. cbn [languageCode languageName]. now split.
Qed.

End ServiceFacts.

(** ** The claims about the service adapter *)

Section ServiceClaims.
Import JsString Service.

(** C4, as the specification states it, fails: when the remote call is
    rejected with a service error, [generateSpeech] does not hand that
    error to its caller. *)
Lemma generateSpeech_error_not_propagated :
  ~ propagates_unchanged Examples.unavailable Examples.greeting [].
Proof.
  intros H. specialize (H Examples.unavailable_error eq_refl).
  rewrite (generateSpeech_on_failure _ _ _ _ eq_refl) in H.
  discriminate H.
Qed.

(** C4, amended.  For every failure of the remote speech call,
    [generateSpeech] writes the error it caught to the console and throws
    in its place a new [Error] with the fixed message "Generisanje glasa
    nije uspelo. Proverite konzolu za detalje."; the remote call is made
    exactly once, so it is not retried. *)
Theorem generateSpeech_failure_replaced
        (ai : service) (text : jsstring) (h : history) (e : exn) :
  ai h (speech_request text) = Err e ->
  fst (generateSpeech ai text h) = Err (Error msg_speech_failed)
  /\ snd (generateSpeech ai text h)
     = h ++ [Called (speech_request text)]
         ++ [ConsoleError (lit "Error generating speech:") e]
  /\ calls (snd (generateSpeech ai text h)) = S (calls h).
Proof.
  intros H. split; [| split].
  - now rewrite (generateSpeech_on_failure ai text h e H).
  - now rewrite (generateSpeech_on_failure ai text h e H).
  - apply generateSpeech_calls_once.
Qed.

Lemma generateSpeech_failure_replaced_witness :
  fst (generateSpeech Examples.unavailable Examples.greeting [])
  = Err (Error msg_speech_failed)
  /\ calls (snd (generateSpeech Examples.unavailable Examples.greeting [])) = 1%nat.
Proof.
  destruct (generateSpeech_failure_replaced
              Examples.unavailable Examples.greeting [] Examples.unavailable_error eq_refl)
    as (Hthrown & _ & Hcalls).
  split; [exact Hthrown | exact Hcalls].
Defined.

(** C8. When the response of the remote call holds no inline audio data
    (no candidate, no part, no inline data or no data field),
    [generateSpeech] returns nothing and throws an [Error]; and whenever
    it does return, what it returns is the inline audio data of the
    response and is not the empty string. *)
Theorem generateSpeech_requires_audio (ai : service) (text : jsstring) (h : history) :
  (forall response,
      ai h (speech_request text) = Ok response ->
      no_inline_audio response ->
      fst (generateSpeech ai text h) = Err (Error msg_speech_failed))
  /\ (forall payload,
        fst (generateSpeech ai text h) = Ok payload ->
        payload <> []
        /\ exists response,
            ai h (speech_request text) = Ok response
            /\ inline_audio response = Some payload).
Proof.
  split.
  - intros response H Hno. apply inline_audio_absent in Hno.
    now rewrite (generateSpeech_on_missing_audio ai text h response H (or_introl Hno)).
  - intros payload Hret.
    destruct (ai h (speech_request text)) as [response | e] eqn:H.
    + destruct (inline_audio response) as [[| c rest] |] eqn:Ha.
      * rewrite (generateSpeech_on_missing_audio ai text h response H (or_intror Ha)) in Hret.
        discriminate Hret.
      * rewrite (generateSpeech_on_audio ai text h response c rest H Ha) in Hret.
        cbn [fst] in Hret. injection Hret as <-.
        split; [discriminate |]. now exists response.
      * rewrite (generateSpeech_on_missing_audio ai text h response H (or_introl Ha)) in Hret.
        discriminate Hret.
    + rewrite (generateSpeech_on_failure ai text h e H) in Hret. discriminate Hret.
Qed.

Lemma generateSpeech_requires_audio_witness :
  fst (generateSpeech Examples.silent Examples.greeting []) = Err (Error msg_speech_failed).
Proof.
  apply (proj1 (generateSpeech_requires_audio Examples.silent Examples.greeting [])
               Examples.empty_response).
  - reflexivity.
  - apply no_candidates. reflexivity.
Defined.

(** C10. When the remote call succeeds with a response that has a text,
    [transcribeAudio] returns that text with the white space at both ends
    removed: the string returned neither starts nor ends with a white-space
    character. *)
Theorem transcribeAudio_trimmed
        (ai : service) (audioBase64 mimeType : jsstring) (h : history)
        (response : GenAI.GenerateContentResponse) (t : jsstring) :
  ai h (transcription_request audioBase64 mimeType) = Ok response ->
  GenAI.text response = Some t ->
  fst (transcribeAudio ai audioBase64 mimeType h) = Ok (trim t)
  /\ (forall c rest, trim t = c :: rest -> is_white_space c = false)
  /\ (forall init c, trim t = init ++ [c] -> is_white_space c = false).
Proof.
  intros H Ht. split; [| split].
  - unfold transcribeAudio. run_M. now rewrite H, Ht.
  - intros c rest. apply trim_head.
  - intros init c. apply trim_last.
Qed.

Lemma transcribeAudio_trimmed_witness :
  fst (transcribeAudio Examples.transcriber (lit "UklGRg==") (lit "audio/webm") [])
  = Ok (lit "Dobar dan.").
Proof.
  exact (proj1 (transcribeAudio_trimmed
                  Examples.transcriber (lit "UklGRg==") (lit "audio/webm") []
                  Examples.padded_response Examples.padded_text eq_refl eq_refl)).
Defined.

End ServiceClaims.

Section TranslationClaims.
Import JsString Service.

Variable JSON_parse : jsstring -> option json.

(** What [translateText] returns when the service answers with a JSON array
    that holds no [null]. *)
Lemma translateText_on_array
      (ai : service) (text : jsstring) (targetLanguages : list Language) (h : history)
      (response : GenAI.GenerateContentResponse) (t : jsstring) (items : list json) :
  ai h (translation_request text targetLanguages) = Ok response ->
  GenAI.text response = Some t ->
  JSON_parse t = Some (JArray items) ->
  Forall (fun item => item <> JNull) items ->
  exists translations,
    fst (translateText JSON_parse ai text targetLanguages h) = Ok translations
    /\ Forall2 (fun item tr => translation_of_item targetLanguages item = Ok tr)
         items translations.
Proof.
  intros H Ht Hp Hitems.
  destruct (map_result_Forall2 (translation_of_item targetLanguages) items)
    as (translations & Hmap & Hall).
  { eapply Forall_impl; [| exact Hitems]. intros item. apply translation_of_item_ok. }
  exists translations. split; [| exact Hall].
  unfold translateText. run_M.
  rewrite H, Ht. cbn [opt_chain]. now rewrite Hp, Hmap.
Qed.

(** C9. When the service answers with a JSON array that holds no [null],
    [translateText] returns one translation per item, whatever the
    language codes of the items are.  Each translation carries the
    language code of its item; its language name is the name of the first
    entry of [targetLanguages] with that code when there is one, and the
    language code itself when there is none. *)
Theorem translateText_language_name
        (ai : service) (text : jsstring) (targetLanguages : list Language) (h : history)
        (response : GenAI.GenerateContentResponse) (t : jsstring) (items : list json) :
  ai h (translation_request text targetLanguages) = Ok response ->
  GenAI.text response = Some t ->
  JSON_parse t = Some (JArray items) ->
  Forall (fun item => item <> JNull) items ->
  exists translations,
    fst (translateText JSON_parse ai text targetLanguages h) = Ok translations
    /\ Forall2
         (fun item tr =>
            get_field item (lit "languageCode") = Ok (languageCode tr)
            /\ (forall c l,
                   languageCode tr = Some (JString c) ->
                   first_with_code targetLanguages c l ->
                   languageName tr = Some (JString (name l)))
            /\ ((forall l, In l targetLanguages ->
                           languageCode tr <> Some (JString (code l))) ->
                languageName tr = languageCode tr))
         items translations.
Proof.
  intros H Ht Hp Hitems.
  destruct (translateText_on_array ai text targetLanguages h response t items H Ht Hp Hitems)
    as (translations & Hret & Hall).
  exists translations. split; [exact Hret |].
  eapply Forall2_impl; [| exact Hall].
  intros item tr Htr. cbv beta.
  destruct (translation_of_item_name targetLanguages item tr Htr) as [Hcode Hname].
  split; [exact Hcode |]. split.
  - intros c l Hc (before & after & -> & Hl & Hbefore).
    rewrite Hname, Hc, (find_first_unique _ before after l); [reflexivity | |].
    + cbn. now apply eqb_eq.
    + eapply Forall_impl; [| exact Hbefore]. intros l' Hl'. cbn. now apply eqb_neq.
  - intros Hnone. rewrite Hname.
    destruct (find _ targetLanguages) as [l |] eqn:Hfind; [| reflexivity].
    apply find_some in Hfind as [Hin Heq]. exfalso. apply (Hnone l Hin).
    unfold strict_eq_string in Heq.
    destruct (languageCode tr) as [[| | | s | |] |]; try discriminate.
    apply eqb_eq in Heq. now subst.
Qed.

End TranslationClaims.

Section TranslationWitness.
Import JsString Service.

Lemma translateText_language_name_witness :
  exists translations,
    fst (translateText Examples.parse_known Examples.translator
           Examples.greeting [Examples.english] [])
    = Ok translations
    /\ map languageName translations = [Some (JString (lit "xx"))].
Proof.
  destruct (translateText_language_name
              Examples.parse_known Examples.translator
              Examples.greeting [Examples.english] []
              Examples.translation_response Examples.translation_text
              Examples.translation_items
              eq_refl eq_refl eq_refl
              ltac:(repeat constructor; discriminate))
    as (translations & Hret & Hall).
  exists translations. split; [exact Hret |].
  inversion Hall as [| item tr items trs (_ & _ & Hname) Hrest]; subst.
  inversion Hrest; subst. cbn [map]. f_equal.
  rewrite Hname.
  - injection Hret as <-. reflexivity.
  - intros l [<- | []]. injection Hret as <-. discriminate.
Defined.

End TranslationWitness.

(** ** Further properties of the playback path *)

Section PlaybackProperties.
Import Pcm Playback Card.

Lemma samples_of_bytes_skip (ab : list Z) (n i : nat) (lo hi : Z) :
  nth_error ab (n + 2 * i) = Some lo ->
  nth_error ab (n + 2 * i + 1) = Some hi ->
  nth_error (samples_of_bytes (skipn n ab)) i = Some (int16_of_le lo hi).
Proof.
  intros Hlo Hhi. apply samples_of_bytes_nth.
  - now rewrite nth_error_skipn.
  - rewrite nth_error_skipn. now replace (n + (2 * i + 1))%nat with (n + 2 * i + 1)%nat by lia.
Qed.

Lemma Forall_skip {A : Type} (Q : A -> Prop) (n : nat) (l : list A) :
  Forall Q l -> Forall Q (skipn n l).
Proof.
  revert l. induction n as [| n IH]; intros l H; [exact H |].
  destruct H as [| a l Ha Hl]; [constructor | now apply IH].
Qed.

(** X2. For a buffer of bytes, the decoder succeeds exactly when an even
    number of bytes follows the 44th: then it yields one 16-bit sample per
    byte pair, sample [i] being read from bytes [44 + 2i] and [44 + 2i + 1];
    when the number is odd it throws a [RangeError]. *)
Theorem decodeWav_samples (arrayBuffer : list Z) :
  Forall is_byte arrayBuffer ->
  (Nat.even (length arrayBuffer - 44) = true ->
   exists pcmInt16,
     decodeWav arrayBuffer = Ok pcmInt16
     /\ length pcmInt16 = Nat.div (length arrayBuffer - 44) 2
     /\ Forall is_pcm_sample pcmInt16
     /\ forall i lo hi,
         nth_error arrayBuffer (44 + 2 * i) = Some lo ->
         nth_error arrayBuffer (44 + 2 * i + 1) = Some hi ->
         nth_error pcmInt16 i = Some (to_int16 (lo + 256 * hi)))
  /\ (Nat.odd (length arrayBuffer - 44) = true ->
      decodeWav arrayBuffer = Err RangeError).
Proof.
  intros Hbytes. unfold decodeWav, Int16Array_of_buffer. rewrite length_skipn.
  split; intros Hpar.
  - rewrite Hpar. exists (samples_of_bytes (skipn 44 arrayBuffer)).
    split; [reflexivity |]. split; [| split].
    + now rewrite samples_of_bytes_length, length_skipn.
    + apply samples_of_bytes_range. now apply Forall_skip.
    + intros i lo hi. apply samples_of_bytes_skip.
  - now rewrite (even_odd_false _ Hpar).
Qed.

Lemma decodeWav_samples_witness :
  exists pcmInt16,
    decodeWav (repeat 0 44 ++ [254; 255; 0; 128]) = Ok pcmInt16
    /\ nth_error pcmInt16 1 = Some (-32768).
Proof.
  assert (Hb : Forall is_byte (repeat 0 44 ++ [254; 255; 0; 128])).
  { apply Forall_forall. intros b Hin. unfold is_byte.
    apply in_app_or in Hin as [Hin | Hin].
    - apply repeat_spec in Hin. lia.
    - cbn in Hin. lia. }
  destruct (proj1 (decodeWav_samples _ Hb) eq_refl) as (pcm & Hok & _ & _ & Hnth).
  exists pcm. split; [exact Hok |].
  exact (Hnth 1%nat 0 128 eq_refl eq_refl).
Defined.

Lemma normalize_bounded (s : Z) :
  is_pcm_sample s ->
  exists q, SF2Q (normalize s) = Some q /\ (-1 <= q)%Q /\ (q < 1)%Q.
Proof.
  intros Hs. destruct (normalize_value s Hs) as (q & Hq & Hv).
  exists q. split; [exact Hq |].
  rewrite Hv. unfold is_pcm_sample in Hs. unfold Qle, Qlt. cbn. lia.
Qed.

(** X3. Whatever bytes the blob holds, when the playback path gets
    through, every amplitude it hands to the audio buffer is a finite
    number in [-1, 1), and there is one amplitude per byte pair after the
    header. *)
Theorem playback_amplitudes_bounded (arrayBuffer : list Z) (amplitudes : list spec_float) :
  Forall is_byte arrayBuffer ->
  playback_amplitudes arrayBuffer = Ok amplitudes ->
  length amplitudes = Nat.div (length arrayBuffer - 44) 2
  /\ Forall (fun f => exists q, SF2Q f = Some q /\ (-1 <= q)%Q /\ (q < 1)%Q) amplitudes.
Proof.
  intros Hbytes. unfold playback_amplitudes, decodeWav, Int16Array_of_buffer.
  pose proof (Forall_skip is_byte 44 arrayBuffer Hbytes) as Hdata.
  pose proof (length_skipn 44 arrayBuffer) as Hlen.
  set (pcmData := skipn 44 arrayBuffer) in *.
  destruct (Nat.even (length pcmData)); [| discriminate].
  cbn [bind]. intros [= <-]. unfold channelData. split.
  - now rewrite length_map, samples_of_bytes_length, Hlen.
  - apply Forall_map.
    eapply Forall_impl; [| apply samples_of_bytes_range, Hdata].
    intros s. apply normalize_bounded.
Qed.

Lemma playback_amplitudes_bounded_witness :
  exists amplitudes,
    playback_amplitudes (repeat 0 44 ++ [254; 255; 0; 128]) = Ok amplitudes
    /\ length amplitudes = 2%nat.
Proof.
  assert (Hb : Forall is_byte (repeat 0 44 ++ [254; 255; 0; 128])).
  { apply Forall_forall. intros b Hin. unfold is_byte.
    apply in_app_or in Hin as [Hin | Hin].
    - apply repeat_spec in Hin. lia.
    - cbn in Hin. lia. }
  exists (channelData [-2; -32768]). split; [reflexivity |].
  exact (proj1 (playback_amplitudes_bounded
                  (repeat 0 44 ++ [254; 255; 0; 128]) (channelData [-2; -32768])
                  Hb eq_refl)).
Defined.

(** X4. Normalisation keeps the order of samples strictly: a smaller
    sample always gets a smaller amplitude, so no two samples share one. *)
Theorem normalize_strictly_increasing (s1 s2 : Z) :
  is_pcm_sample s1 -> is_pcm_sample s2 -> s1 < s2 ->
  exists q1 q2,
    SF2Q (normalize s1) = Some q1 /\ SF2Q (normalize s2) = Some q2 /\ (q1 < q2)%Q.
Proof.
  intros H1 H2 Hlt.
  destruct (normalize_value s1 H1) as (q1 & Hq1 & Hv1).
  destruct (normalize_value s2 H2) as (q2 & Hq2 & Hv2).
  exists q1, q2. split; [exact Hq1 |]. split; [exact Hq2 |].
  rewrite Hv1, Hv2. unfold Qlt. cbn. lia.
Qed.

Lemma normalize_strictly_increasing_witness :
  exists q1 q2,
    SF2Q (normalize (-1)) = Some q1 /\ SF2Q (normalize 0) = Some q2 /\ (q1 < q2)%Q.
Proof.
  apply (normalize_strictly_increasing (-1) 0); unfold is_pcm_sample; lia.
Defined.

End PlaybackProperties.

Section PlayHandlerProperties.
Import Pcm Playback Card.

Variable createBuffer : AudioContext -> nat -> bool.

(** X5. [handlePlayAudio] has no error handling: when the data after the
    header has an odd number of bytes, it has already set [isPlaying] and
    then stops before anything is played, whatever the audio-buffer
    allocation does; the flag stays set. *)
Theorem handlePlayAudio_odd_data_sticks
        (s : CardState) (info : AudioInfo) (ctx : AudioContext) :
  audioInfo s = Some info -> audioContext s = Some ctx ->
  Nat.odd (length (blob info) - 44) = true ->
  handlePlayAudio createBuffer s = (setIsPlaying true s, None)
  /\ isPlaying (fst (handlePlayAudio createBuffer s)) = true.
Proof.
  intros Hinfo Hctx Hodd.
  assert (E : handlePlayAudio createBuffer s = (setIsPlaying true s, None)).
  { unfold handlePlayAudio. rewrite Hinfo, Hctx.
    unfold Int16Array_of_buffer. rewrite length_skipn, (even_odd_false _ Hodd).
    now destruct (createBuffer ctx (length (blob info) - 44)). }
  split; [exact E | now rewrite E].
Qed.

(** X1. [handlePlayAudio] never looks at the header: with one audio
    context, two cards whose blobs differ only in their first 44 bytes
    start the same playback.  Nor does it check that data follows the
    header: for a blob of at most 44 bytes it sets [isPlaying], asks for a
    buffer of zero frames, and starts an empty playback only when that
    allocation is granted; when it is refused nothing is played and the
    flag stays set. *)
Theorem handlePlayAudio_header_ignored :
  (forall (s1 s2 : CardState) (info1 info2 : AudioInfo) (header1 header2 data : list Z),
      audioContext s1 = audioContext s2 ->
      audioInfo s1 = Some info1 -> audioInfo s2 = Some info2 ->
      blob info1 = header1 ++ data -> blob info2 = header2 ++ data ->
      length header1 = 44%nat -> length header2 = 44%nat ->
      snd (handlePlayAudio createBuffer s1) = snd (handlePlayAudio createBuffer s2))
  /\ (forall (s : CardState) (info : AudioInfo) (ctx : AudioContext),
         audioInfo s = Some info -> audioContext s = Some ctx ->
         (length (blob info) <= 44)%nat ->
         handlePlayAudio createBuffer s
         = (setIsPlaying true s, if createBuffer ctx 0 then Some [] else None)).
Proof.
  split.
  - intros s1 s2 info1 info2 h1 h2 data Hctx Hi1 Hi2 Hb1 Hb2 Hl1 Hl2.
    unfold handlePlayAudio. rewrite Hi1, Hi2, Hctx, Hb1, Hb2.
    rewrite !skipn_app, Hl1, Hl2, Nat.sub_diag.
    rewrite (skipn_all2 h1) by lia. rewrite (skipn_all2 h2) by lia.
    cbn [skipn app].
    destruct (audioContext s2) as [ctx |]; [| reflexivity].
    destruct (createBuffer ctx (length data)); [| reflexivity].
    now destruct (Int16Array_of_buffer data).
  - intros s info ctx Hinfo Hctx Hlen.
    unfold handlePlayAudio. rewrite Hinfo, Hctx.
    rewrite (skipn_all2 (blob info)) by lia. cbn [length].
    now destruct (createBuffer ctx 0).
Qed.

End PlayHandlerProperties.

Lemma handlePlayAudio_header_ignored_witness :
  Card.handlePlayAudio (fun _ byteLength => negb (Nat.eqb byteLength 0))
    {| Card.audioContext := Some {| Card.sampleRate := 24000 |};
       Card.isGeneratingAudio := false;
       Card.audioInfo := Some {| Card.url := []; Card.blob := [82; 73; 70; 70] |};
       Card.error := [];
       Card.isPlaying := false |}
  = ({| Card.audioContext := Some {| Card.sampleRate := 24000 |};
        Card.isGeneratingAudio := false;
        Card.audioInfo := Some {| Card.url := []; Card.blob := [82; 73; 70; 70] |};
        Card.error := [];
        Card.isPlaying := true |},
     None).
Proof.
  apply (proj2 (handlePlayAudio_header_ignored (fun _ byteLength => negb (Nat.eqb byteLength 0)))
           {| Card.audioContext := Some {| Card.sampleRate := 24000 |};
              Card.isGeneratingAudio := false;
              Card.audioInfo := Some {| Card.url := []; Card.blob := [82; 73; 70; 70] |};
              Card.error := [];
              Card.isPlaying := false |}
           {| Card.url := []; Card.blob := [82; 73; 70; 70] |}
           {| Card.sampleRate := 24000 |}).
  - reflexivity.
  - reflexivity.
  - cbn. lia.
Defined.

Lemma handlePlayAudio_odd_data_sticks_witness :
  Card.isPlaying
    (fst (Card.handlePlayAudio (fun _ _ => true)
            {| Card.audioContext := Some {| Card.sampleRate := 24000 |};
               Card.isGeneratingAudio := false;
               Card.audioInfo := Some {| Card.url := []; Card.blob := repeat 0 44 ++ [1; 0; 2] |};
               Card.error := [];
               Card.isPlaying := false |}))
  = true.
Proof.
  exact (proj2 (handlePlayAudio_odd_data_sticks (fun _ _ => true)
                  {| Card.audioContext := Some {| Card.sampleRate := 24000 |};
                     Card.isGeneratingAudio := false;
                     Card.audioInfo := Some {| Card.url := []; Card.blob := repeat 0 44 ++ [1; 0; 2] |};
                     Card.error := [];
                     Card.isPlaying := false |}
                  {| Card.url := []; Card.blob := repeat 0 44 ++ [1; 0; 2] |}
                  {| Card.sampleRate := 24000 |}
                  eq_refl eq_refl eq_refl)).
Defined.

(** ** Further properties of the service adapter *)

Section ServiceRuns.
Import JsString Service.

(** Every run of [transcribeAudio], by what the service answers. *)
Lemma transcribeAudio_run (ai : service) (audioBase64 mimeType : jsstring) (h : history) :
  transcribeAudio ai audioBase64 mimeType h
  = match ai h (transcription_request audioBase64 mimeType) with
    | Ok response =>
        match GenAI.text response with
        | Some t => (Ok (trim t), h ++ [Called (transcription_request audioBase64 mimeType)])
        | None =>
            (Err (Error msg_transcription_failed),
             h ++ [Called (transcription_request audioBase64 mimeType);
                   ConsoleError (lit "Error during transcription:") TypeError])
        end
    | Err e =>
        (Err (Error msg_transcription_failed),
         h ++ [Called (transcription_request audioBase64 mimeType);
               ConsoleError (lit "Error during transcription:") e])
    end.
Proof.
  unfold transcribeAudio. run_M.
  destruct (ai h (transcription_request audioBase64 mimeType)) as [response | e].
  - destruct (GenAI.text response); [reflexivity | now rewrite <- app_assoc].
  - now rewrite <- app_assoc.
Qed.

(** Every run of [generateSpeech]. *)
Lemma generateSpeech_run (ai : service) (text : jsstring) (h : history) :
  generateSpeech ai text h
  = match ai h (speech_request text) with
    | Ok response =>
        match inline_audio response with
        | Some (c :: payload) => (Ok (c :: payload), h ++ [Called (speech_request text)])
        | _ =>
            (Err (Error msg_speech_failed),
             h ++ [Called (speech_request text);
                   ConsoleError (lit "Error generating speech:") (Error msg_no_audio)])
        end
    | Err e =>
        (Err (Error msg_speech_failed),
         h ++ [Called (speech_request text);
               ConsoleError (lit "Error generating speech:") e])
    end.
Proof.
  destruct (ai h (speech_request text)) as [response | e] eqn:H.
  - destruct (inline_audio response) as [[| c rest] |] eqn:Ha.
    + apply (generateSpeech_on_missing_audio ai text h response H (or_intror Ha)).
    + apply (generateSpeech_on_audio ai text h response c rest H Ha).
    + apply (generateSpeech_on_missing_audio ai text h response H (or_introl Ha)).
  - apply (generateSpeech_on_failure ai text h e H).
Qed.

(** The callback of the map throws on [null] only. *)
Lemma translation_of_item_err (targetLanguages : list Language) (item : json) (e : exn) :
  translation_of_item targetLanguages item = Err e -> item = JNull /\ e = TypeError.
Proof. destruct item; cbn; try discriminate. now intros [= <-]. Qed.

Lemma map_result_err (targetLanguages : list Language) (items : list json) (e : exn) :
  map_result (translation_of_item targetLanguages) items = Err e ->
  In JNull items /\ e = TypeError.
Proof.
  induction items as [| item items IH]; cbn [map_result]; [discriminate |].
  destruct (translation_of_item targetLanguages item) as [tr | e'] eqn:E.
  - destruct (map_result (translation_of_item targetLanguages) items) as [trs | e''];
      [discriminate |].
    intros [= <-]. destruct (IH eq_refl) as [Hin He]. split; [now right | exact He].
  - intros [= <-]. apply translation_of_item_err in E as [-> ->]. split; [now left | reflexivity].
Qed.

Lemma map_result_ok_inv (targetLanguages : list Language) (items : list json)
      (trs : list Translation) :
  map_result (translation_of_item targetLanguages) items = Ok trs ->
  Forall (fun item => item <> JNull) items.
Proof.
  revert trs. induction items as [| item items IH]; intros trs; cbn [map_result];
    [constructor |].
  destruct (translation_of_item targetLanguages item) as [tr | e'] eqn:E; [| discriminate].
  destruct (map_result (translation_of_item targetLanguages) items) as [trs' | e''] eqn:E';
    [| discriminate].
  intros _. constructor; [| now apply (IH trs')].
  intros ->. discriminate E.
Qed.

End ServiceRuns.

Section TranslationRuns.
Import JsString Service.

Variable JSON_parse : jsstring -> option json.

(** Every run of [translateText]. *)
Lemma translateText_run
      (ai : service) (text : jsstring) (targetLanguages : list Language) (h : history) :
  translateText JSON_parse ai text targetLanguages h
  = let request := translation_request text targetLanguages in
    let failed cause :=
      (Err (Error msg_translation_failed),
       h ++ [Called request; ConsoleError (lit "Error during translation:") cause]) in
    match ai h request with
    | Ok response =>
        match opt_chain (GenAI.text response) JSON_parse with
        | None => failed SyntaxError
        | Some (JArray items) =>
            match map_result (translation_of_item targetLanguages) items with
            | Ok translations => (Ok translations, h ++ [Called request])
            | Err e => failed e
            end
        | Some _ => failed TypeError
        end
    | Err e => failed e
    end.
Proof.
  unfold translateText. run_M. cbv zeta.
  destruct (ai h (translation_request text targetLanguages)) as [response | e];
    [| now rewrite <- app_assoc].
  destruct (opt_chain (GenAI.text response) JSON_parse) as [[| | | | items |] |];
    try (now rewrite <- app_assoc).
  destruct (map_result (translation_of_item targetLanguages) items);
    [reflexivity | now rewrite <- app_assoc].
Qed.

End TranslationRuns.

Section ServiceProperties.
Import JsString Service.

(** X6. [transcribeAudio] returns exactly when the remote call succeeds
    with a response that has a text, and then returns that text trimmed.
    In every other case what it throws is the [Error] with the fixed
    message "Transkripcija nije uspela. Proverite konzolu za detalje.",
    after one [console.error] that carries the cause: the very value the
    call was rejected with, or the [TypeError] of reading [trim] from an
    undefined text. *)
Theorem transcribeAudio_outcome
        (ai : service) (audioBase64 mimeType : jsstring) (h : history) :
  (forall r,
      fst (transcribeAudio ai audioBase64 mimeType h) = Ok r
      <-> exists response t,
            ai h (transcription_request audioBase64 mimeType) = Ok response
            /\ GenAI.text response = Some t /\ r = trim t)
  /\ (forall e,
         fst (transcribeAudio ai audioBase64 mimeType h) = Err e ->
         e = Error msg_transcription_failed
         /\ ((exists rejection,
                 ai h (transcription_request audioBase64 mimeType) = Err rejection
                 /\ snd (transcribeAudio ai audioBase64 mimeType h)
                    = h ++ [Called (transcription_request audioBase64 mimeType);
                            ConsoleError (lit "Error during transcription:") rejection])
             \/ (exists response,
                    ai h (transcription_request audioBase64 mimeType) = Ok response
                    /\ GenAI.text response = None
                    /\ snd (transcribeAudio ai audioBase64 mimeType h)
                       = h ++ [Called (transcription_request audioBase64 mimeType);
                               ConsoleError (lit "Error during transcription:") TypeError]))).
Proof.
  rewrite transcribeAudio_run.
  destruct (ai h (transcription_request audioBase64 mimeType)) as [response | e0].
  - destruct (GenAI.text response) as [t |] eqn:Ht; cbn [fst snd]; split.
    + intros r. split.
      * intros [= <-]. now exists response, t.
      * intros (response' & t' & [= <-] & Ht' & ->). congruence.
    + discriminate.
    + intros r. split; [discriminate |].
      intros (response' & t' & [= <-] & Ht' & _). congruence.
    + intros e [= <-]. split; [reflexivity |]. right. now exists response.
  - cbn [fst snd]. split.
    + intros r. split; [discriminate |]. intros (response & t & H & _). discriminate H.
    + intros e [= <-]. split; [reflexivity |]. left. now exists e0.
Qed.

Lemma transcribeAudio_outcome_witness :
  fst (transcribeAudio Examples.unavailable (lit "UklGRg==") (lit "audio/webm") [])
  = Err (Error msg_transcription_failed).
Proof.
  destruct (fst (transcribeAudio Examples.unavailable (lit "UklGRg==") (lit "audio/webm") []))
    as [r | e] eqn:E.
  - discriminate E.
  - f_equal.
    exact (proj1 (proj2 (transcribeAudio_outcome Examples.unavailable
                           (lit "UklGRg==") (lit "audio/webm") []) e E)).
Defined.

(** X7. [generateSpeech] returns exactly when the remote call succeeds
    with a response whose inline audio data is a non-empty string, and then
    returns that string.  In every other case what it throws is the
    [Error] with the fixed message "Generisanje glasa nije uspelo. ...",
    after one [console.error] that carries the cause: the very value the
    call was rejected with, or, when the audio data is missing or empty,
    the inner [Error] "Nije primljen audio sadržaj od API-ja.", which so
    reaches the console and never the caller. *)
Theorem generateSpeech_outcome (ai : service) (text : jsstring) (h : history) :
  (forall payload,
      fst (generateSpeech ai text h) = Ok payload
      <-> exists response,
            ai h (speech_request text) = Ok response
            /\ inline_audio response = Some payload /\ payload <> [])
  /\ (forall e,
         fst (generateSpeech ai text h) = Err e ->
         e = Error msg_speech_failed
         /\ e <> Error msg_no_audio
         /\ ((exists rejection,
                 ai h (speech_request text) = Err rejection
                 /\ snd (generateSpeech ai text h)
                    = h ++ [Called (speech_request text);
                            ConsoleError (lit "Error generating speech:") rejection])
             \/ (exists response,
                    ai h (speech_request text) = Ok response
                    /\ (inline_audio response = None \/ inline_audio response = Some [])
                    /\ snd (generateSpeech ai text h)
                       = h ++ [Called (speech_request text);
                               ConsoleError (lit "Error generating speech:")
                                            (Error msg_no_audio)]))).
Proof.
  rewrite generateSpeech_run.
  destruct (ai h (speech_request text)) as [response | e0].
  - destruct (inline_audio response) as [[| c rest] |] eqn:Ha; cbn [fst snd]; split.
    + intros p. split; [discriminate |].
      intros (response' & [= <-] & Ha' & Hne). congruence.
    + intros e [= <-]. split; [reflexivity |]. split; [discriminate |].
      right. exists response. repeat split. now right.
    + intros p. split.
      * intros [= <-]. exists response. repeat split; [exact Ha | discriminate].
      * intros (response' & [= <-] & Ha' & _).
        rewrite Ha in Ha'. now injection Ha' as <-.
    + discriminate.
    + intros p. split; [discriminate |].
      intros (response' & [= <-] & Ha' & _). congruence.
    + intros e [= <-]. split; [reflexivity |]. split; [discriminate |].
      right. exists response. repeat split. now left.
  - cbn [fst snd]. split.
    + intros p. split; [discriminate |]. intros (response & H & _). discriminate H.
    + intros e [= <-]. split; [reflexivity |]. split; [discriminate |].
      left. now exists e0.
Qed.

Lemma generateSpeech_outcome_witness :
  fst (generateSpeech
         (fun _ _ => Ok {| GenAI.candidates :=
                             Some [{| GenAI.content :=
                                        Some {| GenAI.parts :=
                                                  Some [{| GenAI.inlineData :=
                                                             Some {| GenAI.data := Some [] |} |}] |} |}];
                           GenAI.text := None |})
         Examples.greeting [])
  = Err (Error msg_speech_failed).
Proof.
  destruct (fst (generateSpeech
         (fun _ _ => Ok {| GenAI.candidates :=
                             Some [{| GenAI.content :=
                                        Some {| GenAI.parts :=
                                                  Some [{| GenAI.inlineData :=
                                                             Some {| GenAI.data := Some [] |} |}] |} |}];
                           GenAI.text := None |})
         Examples.greeting [])) as [p | e] eqn:E.
  - discriminate E.
  - f_equal.
    exact (proj1 (proj2 (generateSpeech_outcome _ Examples.greeting []) e E)).
Defined.

(** X8. None of the three functions retries or skips the remote call:
    whatever the service answers, each run makes exactly one call. *)
Theorem remote_call_made_once (JSON_parse : jsstring -> option json)
        (ai : service) (h : history) :
  (forall audioBase64 mimeType,
      calls (snd (transcribeAudio ai audioBase64 mimeType h)) = S (calls h))
  /\ (forall text targetLanguages,
         calls (snd (translateText JSON_parse ai text targetLanguages h)) = S (calls h))
  /\ (forall text, calls (snd (generateSpeech ai text h)) = S (calls h)).
Proof.
  split; [| split].
  - intros a m. rewrite transcribeAudio_run.
    destruct (ai h (transcription_request a m)) as [response | e];
      [destruct (GenAI.text response) |]; cbn [snd]; rewrite calls_app; cbn; lia.
  - intros text tl. rewrite translateText_run. cbv zeta.
    destruct (ai h (translation_request text tl)) as [response | e].
    + destruct (opt_chain (GenAI.text response) JSON_parse) as [[| | | | items |] |];
        try (cbn [snd]; rewrite calls_app; cbn; lia).
      destruct (map_result (translation_of_item tl) items);
        cbn [snd]; rewrite calls_app; cbn; lia.
    + cbn [snd]. rewrite calls_app. cbn. lia.
  - intros text. apply generateSpeech_calls_once.
Qed.

(** X9. An item that is not [null] and whose [languageCode] is missing or
    is not a string is translated without failure, whatever the target
    languages are, and its language name is that same value: [undefined]
    when the key is missing. *)
Theorem translation_non_string_code
        (targetLanguages : list Language) (item : json) (v : value) :
  item <> JNull ->
  get_field item (lit "languageCode") = Ok v ->
  (forall s, v <> Some (JString s)) ->
  exists tr,
    translation_of_item targetLanguages item = Ok tr
    /\ languageCode tr = v /\ languageName tr = v.
Proof.
  intros Hnn Hget Hns. unfold translation_of_item. rewrite Hget.
  destruct (get_field item (lit "translatedText")) as [t | e] eqn:Ht.
  - eexists. split; [reflexivity |]. cbn [languageCode languageName].
    split; [reflexivity |].
    destruct (find _ targetLanguages) as [l |] eqn:Hfind; [| reflexivity].
    apply find_some in Hfind as [_ Heq]. unfold strict_eq_string in Heq.
    destruct v as [[| | | s | |] |]; try discriminate.
    now destruct (Hns s).
  - destruct item; try discriminate; contradiction.
Qed.

Lemma translation_non_string_code_witness :
  exists tr,
    translation_of_item [Examples.english]
      (JObject [(lit "translatedText", JString (lit "Good day"))]) = Ok tr
    /\ languageCode tr = None /\ languageName tr = None.
Proof.
  apply (translation_non_string_code [Examples.english]
           (JObject [(lit "translatedText", JString (lit "Good day"))]) None).
  - discriminate.
  - reflexivity.
  - discriminate.
Defined.

End ServiceProperties.

Section TranslationProperties.
Import JsString Service.

Variable JSON_parse : jsstring -> option json.

Lemma translation_of_item_text (targetLanguages : list Language) (item : json)
      (tr : Translation) :
  translation_of_item targetLanguages item = Ok tr ->
  get_field item (lit "translatedText") = Ok (text tr).
Proof.
  unfold translation_of_item.
  destruct (get_field item (lit "languageCode")) as [c |];
    destruct (get_field item (lit "translatedText")) as [t |]; try discriminate.
  now intros [= <-].
Qed.

Lemma map_result_ok_Forall2 {A B : Type} (f : A -> result exn B) (xs : list A) (ys : list B) :
  map_result f xs = Ok ys -> Forall2 (fun x y => f x = Ok y) xs ys.
Proof.
  revert ys. induction xs as [| x xs IH]; intros ys; cbn [map_result].
  - intros [= <-]. constructor.
  - destruct (f x) as [y |] eqn:E; [| discriminate].
    destruct (map_result f xs) as [ys' |]; [| discriminate].
    intros [= <-]. constructor; [exact E | now apply IH].
Qed.

(** X10. [translateText] returns exactly when the remote call succeeds
    with a text that parses to an array holding no [null]; it then returns
    one translation per item, in order, each carrying the
    [translatedText] of its item.  In every other case it throws the
    [Error] with the fixed message "Prevođenje nije uspelo. ...", after
    one [console.error] that carries the cause: the very value the call
    was rejected with, a [SyntaxError] when the text is undefined or does
    not parse, a [TypeError] when the parsed value is not an array or the
    array holds a [null]. *)
Theorem translateText_outcome
        (ai : service) (text : jsstring) (targetLanguages : list Language) (h : history) :
  ((exists translations,
       fst (translateText JSON_parse ai text targetLanguages h) = Ok translations)
   <-> exists response t items,
         ai h (translation_request text targetLanguages) = Ok response
         /\ GenAI.text response = Some t
         /\ JSON_parse t = Some (JArray items)
         /\ Forall (fun item => item <> JNull) items)
  /\ (forall translations response t items,
         fst (translateText JSON_parse ai text targetLanguages h) = Ok translations ->
         ai h (translation_request text targetLanguages) = Ok response ->
         GenAI.text response = Some t ->
         JSON_parse t = Some (JArray items) ->
         Forall2 (fun item tr => get_field item (lit "translatedText") = Ok (Service.text tr))
                 items translations)
  /\ (forall e,
         fst (translateText JSON_parse ai text targetLanguages h) = Err e ->
         e = Error msg_translation_failed
         /\ ((exists rejection,
                 ai h (translation_request text targetLanguages) = Err rejection
                 /\ snd (translateText JSON_parse ai text targetLanguages h)
                    = h ++ [Called (translation_request text targetLanguages);
                            ConsoleError (lit "Error during translation:") rejection])
             \/ (exists response,
                    ai h (translation_request text targetLanguages) = Ok response
                    /\ (GenAI.text response = None
                        \/ exists t, GenAI.text response = Some t /\ JSON_parse t = None)
                    /\ snd (translateText JSON_parse ai text targetLanguages h)
                       = h ++ [Called (translation_request text targetLanguages);
                               ConsoleError (lit "Error during translation:") SyntaxError])
             \/ (exists response t parsed,
                    ai h (translation_request text targetLanguages) = Ok response
                    /\ GenAI.text response = Some t
                    /\ JSON_parse t = Some parsed
                    /\ ((forall items, parsed <> JArray items)
                        \/ exists items, parsed = JArray items /\ In JNull items)
                    /\ snd (translateText JSON_parse ai text targetLanguages h)
                       = h ++ [Called (translation_request text targetLanguages);
                               ConsoleError (lit "Error during translation:") TypeError]))).
Proof.
  rewrite translateText_run. cbv zeta.
  destruct (ai h (translation_request text targetLanguages)) as [response | e0].
  - destruct (GenAI.text response) as [t |] eqn:Ht; cbn [opt_chain].
    + destruct (JSON_parse t) as [parsed |] eqn:Hp.
      * destruct parsed as [| b | x | s | items | members];
          try (cbn [fst snd]; split; [| split];
               [ split; [intros [trs H]; discriminate H |];
                 intros (response' & t' & items' & [= <-] & Ht' & Hp' & _);
                 rewrite Ht' in Ht; injection Ht as ->; rewrite Hp in Hp'; discriminate Hp'
               | intros trs response' t' items' H; discriminate H
               | intros e [= <-]; split; [reflexivity |]; right; right;
                 eexists response, t, _; split; [reflexivity |]; split; [exact Ht |];
                 split; [exact Hp |]; split; [left; intros items; discriminate | reflexivity] ]).
        destruct (map_result (translation_of_item targetLanguages) items) as [trs | e1] eqn:Hm;
          cbn [fst snd]; split; [| split | | split].
        -- split.
           ++ intros _. exists response, t, items. repeat split; try assumption.
              now apply (map_result_ok_inv targetLanguages items trs).
           ++ intros _. now exists trs.
        -- intros trs' response' t' items' [= <-] [= <-] Ht' Hp'.
           rewrite Ht' in Ht. injection Ht as ->. rewrite Hp in Hp'. injection Hp' as <-.
           eapply Forall2_impl; [| apply (map_result_ok_Forall2 _ _ _ Hm)].
           intros item tr. apply translation_of_item_text.
        -- discriminate.
        -- split; [intros [trs H]; discriminate H |].
           intros (response' & t' & items' & [= <-] & Ht' & Hp' & Hnn).
           rewrite Ht' in Ht. injection Ht as ->. rewrite Hp in Hp'. injection Hp' as <-.
           destruct (map_result_err _ _ _ Hm) as [Hin _].
           rewrite Forall_forall in Hnn. now destruct (Hnn JNull Hin).
        -- intros trs' response' t' items' H. discriminate H.
        -- intros e [= <-]. destruct (map_result_err _ _ _ Hm) as [Hin ->].
           split; [reflexivity |]. right. right.
           exists response, t, (JArray items). split; [reflexivity |].
           split; [exact Ht |]. split; [exact Hp |].
           split; [right; now exists items | reflexivity].
      * cbn [fst snd]. split; [| split].
        -- split; [intros [trs H]; discriminate H |].
           intros (response' & t' & items' & [= <-] & Ht' & Hp' & _).
           rewrite Ht' in Ht. injection Ht as ->. rewrite Hp in Hp'. discriminate Hp'.
        -- intros trs response' t' items' H. discriminate H.
        -- intros e [= <-]. split; [reflexivity |]. right. left.
           exists response. split; [reflexivity |].
           split; [right; now exists t | reflexivity].
    + cbn [fst snd]. split; [| split].
      * split; [intros [trs H]; discriminate H |].
        intros (response' & t' & items' & [= <-] & Ht' & _). rewrite Ht' in Ht. discriminate Ht.
      * intros trs response' t' items' H. discriminate H.
      * intros e [= <-]. split; [reflexivity |]. right. left.
        exists response. split; [reflexivity |]. split; [now left | reflexivity].
  - cbn [fst snd]. split; [| split].
    + split; [intros [trs H]; discriminate H |].
      intros (response' & t' & items' & H & _). discriminate H.
    + intros trs response' t' items' H. discriminate H.
    + intros e [= <-]. split; [reflexivity |]. left. now exists e0.
Qed.

End TranslationProperties.

Lemma translateText_outcome_witness :
  fst (Service.translateText (fun _ => Some (Service.JArray [Service.JNull]))
         Examples.translator Examples.greeting [Examples.english] [])
  = Err (Service.Error Service.msg_translation_failed).
Proof.
  destruct (fst (Service.translateText (fun _ => Some (Service.JArray [Service.JNull]))
                   Examples.translator Examples.greeting [Examples.english] []))
    as [r | e] eqn:E.
  - discriminate E.
  - f_equal.
    exact (proj1 (proj2 (proj2 (translateText_outcome
                                  (fun _ => Some (Service.JArray [Service.JNull]))
                                  Examples.translator Examples.greeting
                                  [Examples.english] [])) e E)).
Defined.

Section TrimProperties.
Import JsString Service.

Lemma trimStart_split (s : jsstring) :
  exists dropped, s = dropped ++ trimStart s /\ forallb is_white_space dropped = true.
Proof.
  induction s as [| c s (dropped & Hs & Hws)]; cbn [trimStart].
  - now exists [].
  - destruct (is_white_space c) eqn:E.
    + exists (c :: dropped). split; [cbn; now rewrite <- Hs | cbn; now rewrite E].
    + now exists [].
Qed.

Lemma forallb_rev {A : Type} (f : A -> bool) (l : list A) :
  forallb f l = true -> forallb f (rev l) = true.
Proof.
  rewrite !forallb_forall. intros H x Hin. apply H. now apply in_rev.
Qed.

Lemma trim_split (s : jsstring) :
  exists before after,
    s = before ++ trim s ++ after
    /\ forallb is_white_space before = true
    /\ forallb is_white_space after = true.
Proof.
  destruct (trimStart_split s) as (before & Hs & Hb).
  destruct (trimStart_split (rev (trimStart s))) as (dropped & Hr & Hd).
  exists before, (rev dropped). split; [| split].
  - unfold trim, trimEnd. rewrite <- rev_app_distr, <- Hr, rev_involutive. exact Hs.
  - exact Hb.
  - now apply forallb_rev.
Qed.

Lemma trimStart_blank (s : jsstring) :
  forallb is_white_space s = true -> trimStart s = [].
Proof.
  induction s as [| c s IH]; cbn; [reflexivity |].
  destruct (is_white_space c); [exact IH | discriminate].
Qed.

Lemma trim_blank (s : jsstring) : forallb is_white_space s = true -> trim s = [].
Proof. intros H. unfold trim. now rewrite (trimStart_blank s H). Qed.

(** X11. What [transcribeAudio] returns differs from the text of the
    service only by white space at the two ends: the text is the returned
    string with white-space characters before and after it, so no other
    character of the transcription is lost. *)
Theorem transcription_keeps_text
        (ai : service) (audioBase64 mimeType : jsstring) (h : history) (r : jsstring) :
  fst (transcribeAudio ai audioBase64 mimeType h) = Ok r ->
  exists response t before after,
    ai h (transcription_request audioBase64 mimeType) = Ok response
    /\ GenAI.text response = Some t
    /\ t = before ++ r ++ after
    /\ forallb is_white_space before = true
    /\ forallb is_white_space after = true.
Proof.
  rewrite transcribeAudio_run.
  destruct (ai h (transcription_request audioBase64 mimeType)) as [response | e];
    [| discriminate].
  destruct (GenAI.text response) as [t |] eqn:Ht; [| discriminate].
  cbn [fst]. intros [= <-].
  destruct (trim_split t) as (before & after & Hs & Hb & Ha).
  now exists response, t, before, after.
Qed.

Lemma transcription_keeps_text_witness :
  exists response t before after,
    Examples.transcriber [] (transcription_request (lit "UklGRg==") (lit "audio/webm"))
    = Ok response
    /\ GenAI.text response = Some t
    /\ t = before ++ lit "Dobar dan." ++ after
    /\ forallb is_white_space before = true
    /\ forallb is_white_space after = true.
Proof.
  exact (transcription_keeps_text Examples.transcriber (lit "UklGRg==") (lit "audio/webm") []
           (lit "Dobar dan.") eq_refl).
Defined.

End TrimProperties.

(** ** Properties of the components *)

Section ServiceErrors.
Import JsString Service.

Lemma generateSpeech_error (ai : service) (text : jsstring) (h : history) (e : exn) :
  fst (generateSpeech ai text h) = Err e -> e = Error msg_speech_failed.
Proof.
  rewrite generateSpeech_run.
  destruct (ai h (speech_request text)) as [response | e0];
    [destruct (inline_audio response) as [[| c rest] |] |];
    cbn [fst]; congruence.
Qed.

Lemma transcribeAudio_error
      (ai : service) (audioBase64 mimeType : jsstring) (h : history) (e : exn) :
  fst (transcribeAudio ai audioBase64 mimeType h) = Err e ->
  e = Error msg_transcription_failed.
Proof.
  rewrite transcribeAudio_run.
  destruct (ai h (transcription_request audioBase64 mimeType)) as [response | e0];
    [destruct (GenAI.text response) |]; cbn [fst]; congruence.
Qed.

End ServiceErrors.

(** The fields of a card state after the setters. *)
Ltac card_state :=
  cbn [fst snd Card.audioContext Card.isGeneratingAudio Card.audioInfo Card.error
       Card.isPlaying Card.setAudioContext Card.setIsGeneratingAudio Card.setAudioInfo
       Card.setError Card.setIsPlaying].

Section CardProperties.
Import JsString Service Thrown Card.

Variable describe : exn -> option jsstring.
Variable new_AudioContext : Z -> result Foreign AudioContext.
Variable decodeBase64 : jsstring -> result Foreign (list Z).
Variable convertUint8ArrayToInt16Array : list Z -> result Foreign (list Z).
Variable pcmToWavBlob : list Z -> Z -> Z -> result Foreign (list Z).
Variable createObjectURL : history -> list Z -> jsstring.


(** X12. When the speech call fails in any way (rejected call, missing or
    empty audio) and an audio context exists or can be created, the card
    ends with exactly the fixed message "Generisanje glasa nije uspelo.
    Proverite konzolu za detalje." as its error, with no audio and with the
    busy flag cleared, whatever the audio helpers and the runtime's own
    messages are; the cause is never shown. *)
Theorem handleGenerateAudio_speech_failure
        (ai : service) (text : jsstring) (s : CardState) (h : history)
        (c : AudioContext) (e : exn) :
  match audioContext s with
  | Some c' => c' = c
  | None => new_AudioContext 24000 = Ok c
  end ->
  fst (generateSpeech ai text h) = Err e ->
  handleGenerateAudio describe new_AudioContext decodeBase64
       convertUint8ArrayToInt16Array pcmToWavBlob createObjectURL ai text s h
  = ({| audioContext := Some c; isGeneratingAudio := false; audioInfo := None;
        error := msg_speech_failed; isPlaying := isPlaying s |},
     snd (generateSpeech ai text h)).
Proof.
  intros Hctx Hfail. pose proof (generateSpeech_error ai text h e Hfail) as ->.
  unfold handleGenerateAudio. cbn [audioContext setAudioInfo setError setIsGeneratingAudio].
  destruct (generateSpeech ai text h) as [[payload | e'] h'] eqn:Hrun;
    cbn [fst snd] in *; [discriminate |]. injection Hfail as ->.
  destruct (audioContext s) as [c' |].
  - subst c'. reflexivity.
  - rewrite Hctx. reflexivity.
Qed.

(** X13. However the run goes, [handleGenerateAudio] ends with the busy
    flag cleared and the playing flag untouched, keeps an audio context
    that already existed, and makes at most one remote call; and it ends
    with audio only when the speech call returned a payload that the
    helpers turned into that audio, in which case no error is shown. *)
Theorem handleGenerateAudio_final_state
        (ai : service) (text : jsstring) (s : CardState) (h : history) :
  isGeneratingAudio (fst (handleGenerateAudio describe new_AudioContext decodeBase64
       convertUint8ArrayToInt16Array pcmToWavBlob createObjectURL ai text s h)) = false
  /\ isPlaying (fst (handleGenerateAudio describe new_AudioContext decodeBase64
       convertUint8ArrayToInt16Array pcmToWavBlob createObjectURL ai text s h)) = isPlaying s
  /\ (forall c, audioContext s = Some c -> audioContext (fst (handleGenerateAudio describe new_AudioContext decodeBase64
       convertUint8ArrayToInt16Array pcmToWavBlob createObjectURL ai text s h)) = Some c)
  /\ (calls (snd (handleGenerateAudio describe new_AudioContext decodeBase64
       convertUint8ArrayToInt16Array pcmToWavBlob createObjectURL ai text s h)) <= S (calls h))%nat
  /\ (forall info,
         audioInfo (fst (handleGenerateAudio describe new_AudioContext decodeBase64
       convertUint8ArrayToInt16Array pcmToWavBlob createObjectURL ai text s h)) = Some info ->
         error (fst (handleGenerateAudio describe new_AudioContext decodeBase64
       convertUint8ArrayToInt16Array pcmToWavBlob createObjectURL ai text s h)) = []
         /\ exists base64Audio,
             fst (generateSpeech ai text h) = Ok base64Audio
             /\ build_audio decodeBase64 convertUint8ArrayToInt16Array pcmToWavBlob
                  createObjectURL (snd (generateSpeech ai text h)) base64Audio
                = Ok info).
Proof.
  pose proof (generateSpeech_calls_once ai text h) as Hcalls.
  unfold handleGenerateAudio.
  cbn [audioContext setAudioInfo setError setIsGeneratingAudio].
  destruct (match audioContext s with
            | Some c => Ok c
            | None => new_AudioContext 24000
            end) as [c0 | f] eqn:Hc.
  - assert (Hkeep : forall c, audioContext s = Some c -> Some c0 = Some c).
    { intros c Hs. rewrite Hs in Hc. now injection Hc as ->. }
    destruct (generateSpeech ai text h) as [[payload | e] h'] eqn:Hrun; cbn [fst snd] in *.
    + destruct (build_audio _ _ _ _ h' payload) as [info | f] eqn:Hb; card_state.
      * split; [reflexivity |]. split; [reflexivity |]. split; [exact Hkeep |].
        split; [lia |]. intros info' [= <-]. split; [reflexivity |]. now exists payload.
      * split; [reflexivity |]. split; [reflexivity |]. split; [exact Hkeep |].
        split; [lia | discriminate].
    + card_state. split; [reflexivity |]. split; [reflexivity |]. split; [exact Hkeep |].
      split; [lia | discriminate].
  - card_state. split; [reflexivity |]. split; [reflexivity |]. split.
    + intros c Hs. rewrite Hs in Hc. discriminate Hc.
    + split; [lia | discriminate].
Qed.

End CardProperties.

Lemma handleGenerateAudio_speech_failure_witness :
  Card.error
    (fst (Card.handleGenerateAudio Scenarios.no_describe Scenarios.make_context
            Scenarios.bytes_of_payload Scenarios.keep_bytes Scenarios.wrap_bytes
            Scenarios.object_url Examples.silent Examples.greeting
            Scenarios.fresh_card []))
  = Service.msg_speech_failed.
Proof.
  rewrite (handleGenerateAudio_speech_failure
             Scenarios.no_describe Scenarios.make_context
             Scenarios.bytes_of_payload Scenarios.keep_bytes Scenarios.wrap_bytes
             Scenarios.object_url
             Examples.silent Examples.greeting Scenarios.fresh_card []
             {| Card.sampleRate := 24000 |} (Service.Error Service.msg_speech_failed)
             eq_refl eq_refl).
  reflexivity.
Defined.

Lemma handleGenerateAudio_final_state_witness :
  Card.isGeneratingAudio
    (fst (Card.handleGenerateAudio Scenarios.no_describe Scenarios.make_context
            Scenarios.bytes_of_payload Scenarios.keep_bytes Scenarios.wrap_bytes
            Scenarios.object_url Examples.unavailable Examples.greeting
            Scenarios.fresh_card []))
  = false.
Proof.
  exact (proj1 (handleGenerateAudio_final_state
                  Scenarios.no_describe Scenarios.make_context
                  Scenarios.bytes_of_payload Scenarios.keep_bytes Scenarios.wrap_bytes
                  Scenarios.object_url Examples.unavailable Examples.greeting
                  Scenarios.fresh_card [])).
Defined.

(** The fields of an application state after the setters. *)
Ltac app_state :=
  cbn [fst snd App.audioFile App.isRecording App.isLoadingTranscription App.transcription
       App.isLoadingTranslation App.selectedLanguage App.translations App.error
       App.isDropdownOpen App.setAudioFile App.setIsLoadingTranscription
       App.setTranscription App.setIsLoadingTranslation App.setSelectedLanguage
       App.setTranslations App.setError App.setIsDropdownOpen].

Section AppProperties.
Import JsString Service Thrown App.

Variable describe : exn -> option jsstring.
Variable fileToBase64 : File -> result Foreign jsstring.
Variable JSON_parse : jsstring -> option json.

(** X14. Without a file [handleBatchTranscription] does nothing.  With a
    file that can be read it ends with the loading flag cleared, the
    translations and the selected language discarded, and either the
    trimmed text of the service as the transcription and no error, or no
    transcription and exactly the fixed message "Transkripcija nije
    uspela. Proverite konzolu za detalje." as the error. *)
Theorem handleBatchTranscription_outcome (ai : service) (s : AppState) (h : history) :
  (audioFile s = None ->
   handleBatchTranscription describe fileToBase64 ai s h = (s, h))
  /\ (forall file audioBase64,
         audioFile s = Some file ->
         fileToBase64 file = Ok audioBase64 ->
         let s' := fst (handleBatchTranscription describe fileToBase64 ai s h) in
         isLoadingTranscription s' = false
         /\ translations s' = []
         /\ selectedLanguage s' = None
         /\ audioFile s' = Some file
         /\ ((exists response t,
                 ai h (transcription_request audioBase64 (file_type file)) = Ok response
                 /\ GenAI.text response = Some t
                 /\ transcription s' = trim t /\ error s' = [])
             \/ (transcription s' = [] /\ error s' = msg_transcription_failed))).
Proof.
  split.
  - intros Hnone. unfold handleBatchTranscription. now rewrite Hnone.
  - intros file b Hfile Hread. unfold handleBatchTranscription.
    rewrite Hfile, Hread.
    pose proof (transcribeAudio_error ai b (file_type file) h) as Herr.
    rewrite transcribeAudio_run in *.
    destruct (ai h (transcription_request b (file_type file))) as [response | e0].
    + destruct (GenAI.text response) as [t |] eqn:Ht; app_state.
      * repeat split; try assumption. left. now exists response, t.
      * repeat split; try assumption. right. now split.
    + app_state. repeat split; try assumption. right. now split.
Qed.

(** X15. With a transcription and a selected language, [handleTranslate]
    asks for that one language only; when the service answers with an
    array holding no [null], the state ends with one translation per
    item and no error, and each translation is named after the selected
    language when its code is that language's code and after its own code
    otherwise. *)
Theorem handleTranslate_names
        (ai : service) (s : AppState) (h : history) (lang : Language)
        (response : GenAI.GenerateContentResponse) (t : jsstring) (items : list json) :
  transcription s <> [] ->
  selectedLanguage s = Some lang ->
  ai h (translation_request (transcription s) [lang]) = Ok response ->
  GenAI.text response = Some t ->
  JSON_parse t = Some (JArray items) ->
  Forall (fun item => item <> JNull) items ->
  let s' := fst (handleTranslate describe JSON_parse ai s h) in
  isLoadingTranslation s' = false
  /\ error s' = []
  /\ Forall2
       (fun item tr =>
          get_field item (lit "languageCode") = Ok (languageCode tr)
          /\ (languageCode tr = Some (JString (code lang)) ->
              languageName tr = Some (JString (name lang)))
          /\ (languageCode tr <> Some (JString (code lang)) ->
              languageName tr = languageCode tr))
       items (translations s').
Proof.
  intros Hne Hlang H Ht Hp Hitems.
  destruct (translateText_on_array JSON_parse ai (transcription s) [lang] h
              response t items H Ht Hp Hitems) as (trs & Hret & Hall).
  unfold handleTranslate. rewrite Hlang.
  destruct (transcription s) as [| c rest] eqn:Htr; [contradiction |]. cbn [is_empty].
  destruct (translateText JSON_parse ai (c :: rest) [lang] h) as [[trs' | e] h'];
    cbn [fst] in Hret; [| discriminate]. injection Hret as ->.
  app_state. split; [reflexivity |]. split; [reflexivity |].
  eapply Forall2_impl; [| exact Hall].
  intros item tr Htr'. cbv beta.
  destruct (translation_of_item_name [lang] item tr Htr') as [Hcode Hname].
  split; [exact Hcode |]. cbn [find] in Hname. split.
  - intros Hc. rewrite Hname, Hc. cbn [strict_eq_string].
    now rewrite (proj2 (eqb_eq (code lang) (code lang)) eq_refl).
  - intros Hc. rewrite Hname.
    destruct (strict_eq_string (code lang) (languageCode tr)) eqn:E; [| reflexivity].
    exfalso. apply Hc. unfold strict_eq_string in E.
    destruct (languageCode tr) as [[| | | s0 | |] |]; try discriminate.
    apply eqb_eq in E. now subst.
Qed.

(** X16. A recording whose transcription is white space only ends
    [handleBatchTranscription] with an empty transcription and no error
    message; after it, whichever language is chosen, [handleTranslate]
    does nothing and calls no service. *)
Theorem blank_transcription_blocks_translation
        (ai : service) (s : AppState) (h : history) (file : File) (audioBase64 : jsstring)
        (response : GenAI.GenerateContentResponse) (t : jsstring) :
  audioFile s = Some file ->
  fileToBase64 file = Ok audioBase64 ->
  ai h (transcription_request audioBase64 (file_type file)) = Ok response ->
  GenAI.text response = Some t ->
  forallb is_white_space t = true ->
  let s1 := fst (handleBatchTranscription describe fileToBase64 ai s h) in
  let h1 := snd (handleBatchTranscription describe fileToBase64 ai s h) in
  transcription s1 = []
  /\ error s1 = []
  /\ forall (ai' : service) (lang : Language),
       handleTranslate describe JSON_parse ai' (handleLanguageSelect lang s1) h1
       = (handleLanguageSelect lang s1, h1).
Proof.
  intros Hfile Hread H Ht Hblank. unfold handleBatchTranscription.
  rewrite Hfile, Hread, transcribeAudio_run, H, Ht, (trim_blank t Hblank).
  app_state. split; [reflexivity |]. split; [reflexivity |].
  intros ai' lang. reflexivity.
Qed.

End AppProperties.

Lemma handleBatchTranscription_outcome_witness :
  App.transcription
    (fst (App.handleBatchTranscription Scenarios.no_describe Scenarios.read_file
            Examples.unavailable Scenarios.with_recording []))
  = []
  /\ App.error
       (fst (App.handleBatchTranscription Scenarios.no_describe Scenarios.read_file
               Examples.unavailable Scenarios.with_recording []))
     = Service.msg_transcription_failed.
Proof.
  destruct (proj2 (handleBatchTranscription_outcome
                     Scenarios.no_describe Scenarios.read_file
                     Examples.unavailable Scenarios.with_recording [])
                  Scenarios.recording (JsString.lit "UklGRg==") eq_refl eq_refl)
    as (_ & _ & _ & _ & [(response & t & H & _) | Hfailed]).
  - discriminate H.
  - exact Hfailed.
Defined.

Lemma handleTranslate_names_witness :
  map Service.languageName
    (App.translations
       (fst (App.handleTranslate Scenarios.no_describe Scenarios.parse_english
               Scenarios.to_english Scenarios.ready_to_translate [])))
  = [Some (Service.JString (JsString.lit "Engleski"))].
Proof.
  destruct (handleTranslate_names
              Scenarios.no_describe Scenarios.parse_english
              Scenarios.to_english Scenarios.ready_to_translate []
              Examples.english Scenarios.english_response Scenarios.english_text
              Scenarios.english_items
              ltac:(discriminate) eq_refl eq_refl eq_refl eq_refl
              ltac:(repeat constructor; discriminate))
    as (_ & _ & Hall).
  vm_compute in Hall. vm_compute.
  inversion Hall as [| item tr items trs (_ & Hname & _) _].
  exact (f_equal (fun v => [v]) (Hname eq_refl)).
Defined.

Lemma blank_transcription_blocks_translation_witness :
  App.transcription
    (fst (App.handleBatchTranscription Scenarios.no_describe Scenarios.read_file
            Scenarios.hears_nothing Scenarios.with_recording []))
  = []
  /\ App.error
       (fst (App.handleBatchTranscription Scenarios.no_describe Scenarios.read_file
               Scenarios.hears_nothing Scenarios.with_recording []))
     = [].
Proof.
  destruct (blank_transcription_blocks_translation
              Scenarios.no_describe Scenarios.read_file Scenarios.parse_english
              Scenarios.hears_nothing Scenarios.with_recording []
              Scenarios.recording (JsString.lit "UklGRg==")
              Scenarios.blank_response (JsString.lit "  " ++ [10%N])
              eq_refl eq_refl eq_refl eq_refl eq_refl)
    as (Htr & Herr & _).
  split; [exact Htr | exact Herr].
Defined.

Section DecoderInjective.
Import Pcm Playback.

Lemma int16_of_le_inj (lo1 hi1 lo2 hi2 : Z) :
  is_byte lo1 -> is_byte hi1 -> is_byte lo2 -> is_byte hi2 ->
  int16_of_le lo1 hi1 = int16_of_le lo2 hi2 -> lo1 = lo2 /\ hi1 = hi2.
Proof.
  unfold is_byte, int16_of_le, to_int16. intros H1 H2 H3 H4.
  destruct (Z.leb_spec 32768 (lo1 + 256 * hi1));
    destruct (Z.leb_spec 32768 (lo2 + 256 * hi2)); lia.
Qed.

Lemma samples_of_bytes_inj (data1 : list Z) :
  forall data2 : list Z,
    Forall is_byte data1 -> Forall is_byte data2 ->
    Nat.even (length data1) = true -> Nat.even (length data2) = true ->
    samples_of_bytes data1 = samples_of_bytes data2 -> data1 = data2.
Proof.
  induction data1 as [| a | a b l IH] using list_pair_ind;
    intros [| c [| d l2]] Hb1 Hb2 He1 He2 Heq; try discriminate; try reflexivity.
  cbn [samples_of_bytes] in Heq. injection Heq as Hhead Htail.
  inversion Hb1 as [| ? ? Ha Hb1']; subst. inversion Hb1' as [| ? ? Hb Hl]; subst.
  inversion Hb2 as [| ? ? Hc Hb2']; subst. inversion Hb2' as [| ? ? Hd Hl2]; subst.
  destruct (int16_of_le_inj a b c d Ha Hb Hc Hd Hhead) as [-> ->].
  f_equal. f_equal. now apply IH.
Qed.

(** X17. Decoding loses nothing: two buffers of bytes with an even number
    of data bytes after their 44-byte headers decode to the same samples
    only when their data bytes are the same. *)
Theorem decodeWav_injective (header1 header2 data1 data2 : list Z) :
  length header1 = 44%nat -> length header2 = 44%nat ->
  Forall is_byte data1 -> Forall is_byte data2 ->
  Nat.even (length data1) = true -> Nat.even (length data2) = true ->
  decodeWav (header1 ++ data1) = decodeWav (header2 ++ data2) ->
  data1 = data2.
Proof.
  intros H1 H2 Hb1 Hb2 He1 He2. unfold decodeWav, Int16Array_of_buffer.
  rewrite !skipn_app, H1, H2, Nat.sub_diag.
  rewrite (skipn_all2 header1) by lia. rewrite (skipn_all2 header2) by lia.
  cbn [skipn app]. rewrite He1, He2. intros Heq.
  apply samples_of_bytes_inj; try assumption. now injection Heq.
Qed.

Lemma decodeWav_injective_witness : [1; 0; 255; 127] = [1; 0; 255; 127].
Proof.
  apply (decodeWav_injective (repeat 0 44) (repeat 255 44) [1; 0; 255; 127] [1; 0; 255; 127]);
    try reflexivity; repeat constructor; unfold is_byte; lia.
Defined.

End DecoderInjective.
